(** * CRM GraphQL backend: a shallow embedding of [crm/schema.py]

  The development follows the layout of the Python module:

  - [Py]          the handful of Python string primitives the module uses
                  ([str.lower], [in], [startswith], [', '.join]);
  - [Re]          the regular expressions of the validation layer, matched
                  by derivatives;
  - [Model]       the three entities and the entity store the ORM calls
                  act on;
  - [Effects]     the store/exception monad of the mutations;
  - [Validation]  [ValidationMethod];
  - [Mutations]   the five mutation classes;
  - [Queries]     the resolvers of [Query] that take an [order_by], and
                  [resolve_customer_orders];
  - [Api]         the [Mutation] root and the constructed [schema];
  - [Props]       the notions the properties are stated with, and the
                  sample data of the worked examples.

  Conventions.  Strings are ASCII strings.  Decimal amounts are integers
  counting hundredths (10.00 is 1000), on which [Decimal] addition and
  comparison are exact.  Time stamps are integers.  A GraphQL [ID] is the
  integer primary key it denotes. *)

From Stdlib Require Import ZArith List String Ascii Bool Lia Arith.
From Stdlib Require Import Sorted Permutation.
Import ListNotations.

Set Implicit Arguments.

Local Open Scope string_scope.

(* ------------------------------------------------------------------ *)
(** ** Python string primitives *)

Module Py.

Definition is_upper (c : ascii) : bool :=
  let n := nat_of_ascii c in (65 <=? n)%nat && (n <=? 90)%nat.

Definition is_lower (c : ascii) : bool :=
  let n := nat_of_ascii c in (97 <=? n)%nat && (n <=? 122)%nat.

Definition is_digit (c : ascii) : bool :=
  let n := nat_of_ascii c in (48 <=? n)%nat && (n <=? 57)%nat.

Definition lower_char (c : ascii) : ascii :=
  if is_upper c then ascii_of_nat (nat_of_ascii c + 32) else c.

Definition upper_char (c : ascii) : ascii :=
  if is_lower c then ascii_of_nat (nat_of_ascii c - 32) else c.

(** [s.lower()] *)
Fixpoint lower (s : string) : string :=
  match s with
  | EmptyString => EmptyString
  | String c s' => String (lower_char c) (lower s')
  end.

(** [s.startswith(p)] *)
Fixpoint startswith (p s : string) : bool :=
  match p, s with
  | EmptyString, _ => true
  | String a p', String b s' => Ascii.eqb a b && startswith p' s'
  | String _ _, EmptyString => false
  end.

(** [p in s] *)
Fixpoint contains (p s : string) : bool :=
  startswith p s ||
  match s with
  | EmptyString => false
  | String _ s' => contains p s'
  end.

(** [sep.join(l)] *)
Fixpoint join (sep : string) (l : list string) : string :=
  match l with
  | [] => ""
  | [x] => x
  | x :: rest => x ++ sep ++ join sep rest
  end.

(** Truth value of a string: the empty string is false. *)
Definition truthy (s : string) : bool :=
  match s with EmptyString => false | _ => true end.

(** Truth value of an optional string argument: [None] and [""] are
    both false. *)
Definition truthy_opt (o : option string) : bool :=
  match o with Some s => truthy s | None => false end.

(** Truth value of an optional number: [None] and zero are both false. *)
Definition truthy_num (o : option Z) : bool :=
  match o with Some z => negb (z =? 0)%Z | None => false end.

Definition newline : string := String (ascii_of_nat 10) EmptyString.

(** [str(n)] for an integer. *)
Definition digit_of (n : nat) : ascii := ascii_of_nat (48 + n).

Fixpoint str_pos_fuel (fuel : nat) (n : N) (acc : string) : string :=
  match fuel with
  | O => acc
  | S fuel' =>
      let acc' := String (digit_of (N.to_nat (n mod 10))) acc in
      if (n / 10 =? 0)%N then acc' else str_pos_fuel fuel' (n / 10)%N acc'
  end.

Definition str_N (n : N) : string :=
  str_pos_fuel (S (N.to_nat (N.log2 n))) n "".

Definition str_Z (z : Z) : string :=
  match z with
  | Z0 => "0"
  | Zpos p => str_N (Npos p)
  | Zneg p => "-" ++ str_N (Npos p)
  end.


End Py.

(* ------------------------------------------------------------------ *)
(** ** Regular expressions

  The two patterns of [ValidationMethod] only need character classes,
  concatenation, alternation and repetition.  They are matched with
  Brzozowski derivatives. *)

Module Re.

Inductive re : Type :=
| Void : re
| Eps : re
| Class : (ascii -> bool) -> re
| Cat : re -> re -> re
| Alt : re -> re -> re
| Star : re -> re.

Fixpoint nullable (r : re) : bool :=
  match r with
  | Void => false
  | Eps => true
  | Class _ => false
  | Cat r1 r2 => nullable r1 && nullable r2
  | Alt r1 r2 => nullable r1 || nullable r2
  | Star _ => true
  end.

(** Constructors that absorb [Void] and [Eps], so that derivatives stay
    small. *)
Definition cat (r1 r2 : re) : re :=
  match r1, r2 with
  | Void, _ => Void
  | _, Void => Void
  | Eps, _ => r2
  | _, Eps => r1
  | _, _ => Cat r1 r2
  end.

Definition alt (r1 r2 : re) : re :=
  match r1, r2 with
  | Void, _ => r2
  | _, Void => r1
  | _, _ => Alt r1 r2
  end.

Fixpoint deriv (c : ascii) (r : re) : re :=
  match r with
  | Void => Void
  | Eps => Void
  | Class p => if p c then Eps else Void
  | Cat r1 r2 =>
      if nullable r1
      then alt (cat (deriv c r1) r2) (deriv c r2)
      else cat (deriv c r1) r2
  | Alt r1 r2 => alt (deriv c r1) (deriv c r2)
  | Star r1 => cat (deriv c r1) (Star r1)
  end.

Fixpoint fullmatch (r : re) (s : string) : bool :=
  match s with
  | EmptyString => nullable r
  | String c s' => fullmatch (deriv c r) s'
  end.

Definition plus (r : re) : re := Cat r (Star r).

Definition opt (r : re) : re := Alt Eps r.

(** [r{n}] *)
Fixpoint times (n : nat) (r : re) : re :=
  match n with
  | O => Eps
  | S n' => Cat r (times n' r)
  end.

(** [r{n,}] *)
Definition at_least (n : nat) (r : re) : re := Cat (times n r) (Star r).

(** [r{n,m}], for [n <= m] *)
Definition between (n m : nat) (r : re) : re :=
  Cat (times n r) (times (m - n) (opt r)).

Definition chr (c : ascii) : re := Class (Ascii.eqb c).

Definition one_of (s : string) : ascii -> bool :=
  fun c => existsb (Ascii.eqb c) (list_ascii_of_string s).

Definition alnum (c : ascii) : bool :=
  Py.is_lower c || Py.is_upper c || Py.is_digit c.

Definition alpha (c : ascii) : bool := Py.is_lower c || Py.is_upper c.

(** [re.match(r'^body$', s)]: the match is anchored at the start, and
    without [re.MULTILINE] the [$] holds at the end of the string and
    also just before a newline that ends the string. *)
Definition match_anchored (body : re) (s : string) : bool :=
  fullmatch (Cat body (opt (chr (ascii_of_nat 10)))) s.


End Re.

(* ------------------------------------------------------------------ *)
(** ** Entities and the entity store *)

Module Model.
Local Open Scope Z_scope.

Definition ID := Z.
Definition Decimal := Z.
Definition DateTime := Z.

(** Modelled from the spec: [crm/models.py] is not part of the sources.
    The records carry the fields section 3 lists for each entity, which
    are also the fields the object types of [schema.py] expose
    ([CustomerType.Meta.fields] and its siblings). *)
Record Customer : Type := mkCustomer {
  customer_id : ID;
  customer_name : string;
  customer_email : string;
  customer_phone : option string;
  customer_created_at : DateTime;
  customer_updated_at : DateTime
}.

Record Product : Type := mkProduct {
  product_id : ID;
  product_name : string;
  product_price : Decimal;
  product_stock : Z;
  product_created_at : DateTime;
  product_updated_at : DateTime
}.

Record Order : Type := mkOrder {
  order_id : ID;
  order_customer_id : ID;
  order_date : DateTime;
  order_status : string;
  order_total_amount : Decimal;
  order_created_at : DateTime
}.

(** The order-item relation behind [order.items] and [item.product]. *)
Record OrderItem : Type := mkOrderItem {
  item_order_id : ID;
  item_product_id : ID
}.

(** The tables, in insertion order, and the next primary key of each. *)
Record Store : Type := mkStore {
  customers : list Customer;
  products : list Product;
  orders : list Order;
  order_items : list OrderItem;
  next_customer_id : ID;
  next_product_id : ID;
  next_order_id : ID
}.

Definition empty_store : Store := mkStore [] [] [] [] 1 1 1.

(** What a request reads from its surroundings: the clock, and the value
    the [Order] model gives [status] when none is passed. *)
Record Env : Type := mkEnv {
  now : DateTime;
  default_status : string
}.

(** [Customer.objects.filter(email=email).exists()] *)
Definition email_exists (st : Store) (email : string) : bool :=
  existsb (fun c => String.eqb (customer_email c) email) (customers st).

(** [Customer.objects.get(id=i)], [None] standing for [DoesNotExist]. *)
Definition get_customer (st : Store) (i : ID) : option Customer :=
  find (fun c => (customer_id c =? i)%Z) (customers st).

(** [Product.objects.get(id=i)] *)
Definition get_product (st : Store) (i : ID) : option Product :=
  find (fun p => (product_id p =? i)%Z) (products st).

(** [order.items.all()] *)
Definition items_of (st : Store) (o : Order) : list OrderItem :=
  filter (fun it => (item_order_id it =? order_id o)%Z) (order_items st).

(** [OrderType.resolve_products]: [[item.product for item in self.items.all()]] *)
Definition resolve_products_of_order (st : Store) (o : Order) : list Product :=
  flat_map
    (fun it => match get_product st (item_product_id it) with
               | Some p => [p]
               | None => []
               end)
    (items_of st o).

(** [save()] of a new customer: the row gets the next primary key and
    both time stamps. *)
Definition insert_customer (env : Env) (name email : string)
    (phone : option string) (st : Store) : Store * Customer :=
  let c := mkCustomer (next_customer_id st) name email phone (now env) (now env) in
  (mkStore (customers st ++ [c])%list (products st) (orders st) (order_items st)
           (next_customer_id st + 1) (next_product_id st) (next_order_id st),
   c).

Definition insert_product (env : Env) (name : string) (price : Decimal)
    (stock : Z) (st : Store) : Store * Product :=
  let p := mkProduct (next_product_id st) name price stock (now env) (now env) in
  (mkStore (customers st) (products st ++ [p])%list (orders st) (order_items st)
           (next_customer_id st) (next_product_id st + 1) (next_order_id st),
   p).

(** [save()] of a new order.  Modelled from the spec: an order date that
    is not given defaults to the creation time. *)
Definition insert_order (env : Env) (customer : Customer)
    (date : option DateTime) (total : Decimal) (st : Store) : Store * Order :=
  let d := match date with Some d => d | None => now env end in
  let o := mkOrder (next_order_id st) (customer_id customer) d
                   (default_status env) total (now env) in
  (mkStore (customers st) (products st) (orders st ++ [o])%list (order_items st)
           (next_customer_id st) (next_product_id st) (next_order_id st + 1),
   o).

(** [save()] of a product that was read from the store: the row with its
    primary key is overwritten. *)
Definition update_product (env : Env) (p : Product) (st : Store) : Store :=
  let p' := mkProduct (product_id p) (product_name p) (product_price p)
                      (product_stock p) (product_created_at p) (now env) in
  mkStore (customers st)
          (map (fun q => if (product_id q =? product_id p)%Z then p' else q)
               (products st))
          (orders st) (order_items st)
          (next_customer_id st) (next_product_id st) (next_order_id st).

Definition emails (st : Store) : list string :=
  map customer_email (customers st).

(** A GraphQL [ID] as the module receives it: the text the client sent,
    and the primary key the ORM's integer coercion makes of that text, if it
    makes one ([None] for ['abc'] or for a relay global id).  The coercion
    itself belongs to the ORM. *)
Record GraphQLID : Type := mkGraphQLID {
  id_text : string;
  id_key : option ID
}.

(** The text of the [ValueError] the ORM raises for an id it cannot
    coerce (its wording differs between versions of the library; nothing
    below depends on it). *)
Definition msg_not_a_number (id : GraphQLID) : string :=
  "Field 'id' expected a number but got '" ++ id_text id ++ "'.".

(** The id a client writes for a primary key, in plain decimal. *)
Definition plain_id (key : ID) : GraphQLID := mkGraphQLID (Py.str_Z key) (Some key).

End Model.

(* ------------------------------------------------------------------ *)
(** ** Store and exception effects *)

Module Effects.
Import Model.

Inductive exn : Type :=
| ValidationError (message : string)
| TypeError (message : string)
| FieldError (message : string)
| DoesNotExist (model : string)
| ValueError (message : string).

(** [str(e)].  A [ValidationError] built from one message prints as the
    list of its messages. *)
Definition str (e : exn) : string :=
  match e with
  | ValidationError m => "['" ++ m ++ "']"
  | TypeError m => m
  | FieldError m => m
  | DoesNotExist model => model ++ " matching query does not exist."
  | ValueError m => m
  end.

Inductive outcome (A : Type) : Type :=
| Return (a : A)
| Raise (e : exn).

Arguments Return {A} a.
Arguments Raise {A} e.

(** A computation reads and writes the store and either returns or
    raises.  Writes made before an exception stay: nothing in the module
    rolls a transaction back. *)
Definition M (A : Type) : Type := Store -> Store * outcome A.

Definition ret {A} (a : A) : M A := fun st => (st, Return a).

Definition raise {A} (e : exn) : M A := fun st => (st, Raise e).

Definition bind {A B} (m : M A) (k : A -> M B) : M B :=
  fun st =>
    match m st with
    | (st', Return a) => k a st'
    | (st', Raise e) => (st', Raise e)
    end.

(** [try: m except Exception as e: h e] *)
Definition try_except {A} (m : M A) (h : exn -> M A) : M A :=
  fun st =>
    match m st with
    | (st', Return a) => (st', Return a)
    | (st', Raise e) => h e st'
    end.

Definition get : M Store := fun st => (st, Return st).

Definition lift {A} (f : Store -> Store * A) : M A :=
  fun st => let (st', a) := f st in (st', Return a).

Definition modify (f : Store -> Store) : M unit :=
  fun st => (f st, Return tt).

Declare Scope crm_scope.
Delimit Scope crm_scope with crm.

Notation "x <- m ;; k" := (bind m (fun x => k))
  (at level 61, m at next level, right associativity) : crm_scope.
Notation "m ;;; k" := (bind m (fun _ => k))
  (at level 61, right associativity) : crm_scope.

(** Building a graphene object: a keyword that is not a declared field
    of the class is refused with a [TypeError] (the wording of the
    message differs between versions of the library; nothing below
    depends on it). *)
Definition invalid_kwarg (declared kwargs : list string) : option string :=
  find (fun k => negb (existsb (String.eqb k) declared)) kwargs.

Definition construct {A} (cls : string) (declared kwargs : list string)
    (obj : A) : M A :=
  match invalid_kwarg declared kwargs with
  | Some k =>
      raise (TypeError ("'" ++ k ++ "' is an invalid keyword argument for " ++ cls))
  | None => ret obj
  end.

End Effects.

(* ------------------------------------------------------------------ *)
(** ** [ValidationMethod] *)

Module Validation.
Import Model Effects.
Local Open Scope crm_scope.

(** [[a-zA-Z0-9._%+-]] *)
Definition email_local (c : ascii) : bool := Re.alnum c || Re.one_of "._%+-" c.

(** [[a-zA-Z0-9.-]] *)
Definition email_domain (c : ascii) : bool := Re.alnum c || Re.one_of ".-" c.

(** [^[a-zA-Z0-9._%+-]+@[a-zA-Z0-9.-]+\.[a-zA-Z]{2,}$] *)
Definition email_pattern : Re.re :=
  Re.Cat (Re.plus (Re.Class email_local))
 (Re.Cat (Re.chr "@")
 (Re.Cat (Re.plus (Re.Class email_domain))
 (Re.Cat (Re.chr ".")
         (Re.at_least 2 (Re.Class Re.alpha))))).

Definition digit : Re.re := Re.Class Py.is_digit.

(** [^(\+\d{10,15}|\d{3}-\d{3}-\d{4})$] *)
Definition phone_pattern : Re.re :=
  Re.Alt (Re.Cat (Re.chr "+") (Re.between 10 15 digit))
         (Re.Cat (Re.times 3 digit)
         (Re.Cat (Re.chr "-")
         (Re.Cat (Re.times 3 digit)
         (Re.Cat (Re.chr "-") (Re.times 4 digit))))).

Definition email_format_ok (email : string) : bool :=
  Re.match_anchored email_pattern email.

Definition phone_format_ok (phone : string) : bool :=
  Re.match_anchored phone_pattern phone.

Definition msg_invalid_email : string := "Please enter a valid email address.".
Definition msg_email_exists : string := "A customer with this email already exists.".
Definition msg_invalid_phone : string :=
  "Phone number must be in format: +1234567890 or 123-456-7890".
Definition msg_price : string := "Price must be a positive number.".
Definition msg_stock : string := "Stock cannot be negative".

Definition validate_email (email : string) : M unit :=
  if negb (email_format_ok email) then raise (ValidationError msg_invalid_email)
  else
    st <- get ;;
    if email_exists st email then raise (ValidationError msg_email_exists)
    else ret tt.

Definition validate_phone (phone : option string) : M unit :=
  match phone with
  | Some p =>
      if Py.truthy p
      then if negb (phone_format_ok p)
           then raise (ValidationError msg_invalid_phone)
           else ret tt
      else ret tt
  | None => ret tt
  end.

Definition validate_price (price : Decimal) : M unit :=
  if (price <=? 0)%Z then raise (ValidationError msg_price) else ret tt.

Definition validate_stock (stock : Z) : M unit :=
  if (stock <? 0)%Z then raise (ValidationError msg_stock) else ret tt.

End Validation.

(* ------------------------------------------------------------------ *)
(** ** The mutation classes *)

Module Mutations.
Import Model Effects Validation.
Local Open Scope crm_scope.
Local Open Scope Z_scope.

(** *** Input and output objects *)

Record CreateCustomerInput : Type := mkCreateCustomerInput {
  in_name : string;
  in_email : string;
  in_phone : option string
}.

Record CreateProductInput : Type := mkCreateProductInput {
  in_product_name : string;
  in_price : Decimal;
  in_stock : option Z
}.

Record CreateOrderInput : Type := mkCreateOrderInput {
  in_customer_id : ID;
  in_product_ids : list ID;
  in_order_date : option DateTime
}.

Record ErrorType : Type := mkErrorType {
  error_field : string;
  error_message : string;
  error_index : Z
}.

Record CreateCustomer : Type := mkCreateCustomer {
  cc_customer : option Customer;
  cc_message : string;
  cc_success : bool
}.

Record BulkCreateCustomers : Type := mkBulkCreateCustomers {
  bulk_customers : list Customer;
  bulk_errors : list ErrorType
}.

Record CreateProduct : Type := mkCreateProduct {
  cp_product : option Product;
  cp_message : string;
  cp_success : bool
}.

Record CreateOrder : Type := mkCreateOrder {
  co_order : option Order;
  co_message : string;
  co_success : bool
}.

Record UpdateLowStockProducts : Type := mkUpdateLowStockProducts {
  ul_updated_count : Z;
  ul_message : string;
  ul_success : bool
}.

(** The fields each class declares. *)
Definition ErrorType_fields : list string := ["field"; "message"; "index"].
Definition CreateCustomer_fields : list string := ["customer"; "message"; "success"].
Definition BulkCreateCustomers_fields : list string := ["customers"; "errors"; "result"].
Definition CreateProduct_fields : list string := ["product"; "message"; "success"].
Definition CreateOrder_fields : list string := ["order"; "message"; "success"].
Definition UpdateLowStockProducts_fields : list string :=
  ["updated_count"; "message"; "success"].

(** Modelled from the spec: [full_clean()] runs the validators of
    [crm/models.py], which is not part of the sources.  Section 4.1 makes
    the checks of the validation layer the primary enforcement and the
    persistence layer a safety net behind them, so an instance that passed
    the validation layer passes here. *)
Definition full_clean : M unit := ret tt.

(** *** [CreateCustomer.mutate] *)

Definition msg_duplicate_email : string := "A customer with this email already exists.".
Definition msg_phone_format : string := "Invalid phone format".

Definition CreateCustomer_mutate (env : Env) (input : CreateCustomerInput)
  : M CreateCustomer :=
  try_except
    (validate_email (in_email input) ;;;
     validate_phone (in_phone input) ;;;
     full_clean ;;;
     customer <- lift (insert_customer env (in_name input) (in_email input)
                                       (in_phone input)) ;;
     construct "CreateCustomer" CreateCustomer_fields
       ["customer"; "message"; "success"]
       (mkCreateCustomer (Some customer) "Customer created successfully!" true))
    (fun e =>
       match e with
       | ValidationError _ =>
           let error_message :=
             if Py.contains "email" (Py.lower (str e)) then msg_duplicate_email
             else if Py.contains "phone" (Py.lower (str e)) then msg_phone_format
             else str e in
           construct "CreateCustomer" CreateCustomer_fields
             ["customer"; "message"; "success"]
             (mkCreateCustomer None error_message false)
       | _ =>
           construct "CreateCustomer" CreateCustomer_fields
             ["customer"; "message"; "success"]
             (mkCreateCustomer None ("An error occurred: " ++ str e) false)
       end).

(** *** [BulkCreateCustomers.mutate] *)

Definition msg_bulk_duplicate (email : string) : string :=
  "Email '" ++ email ++ "' already exists".

(** One turn of the loop over [enumerate(input)]: the two lists are the
    local [created_customers] and [errors]. *)
Definition bulk_item (env : Env) (index : nat) (input_data : CreateCustomerInput)
    (acc : list Customer * list ErrorType)
  : M (list Customer * list ErrorType) :=
  try_except
    (validate_email (in_email input_data) ;;;
     validate_phone (in_phone input_data) ;;;
     full_clean ;;;
     customer <- lift (insert_customer env (in_name input_data)
                                       (in_email input_data)
                                       (in_phone input_data)) ;;
     ret ((fst acc ++ [customer])%list, snd acc))
    (fun e =>
       let error_message := str e in
       let error_message :=
         if Py.contains "email" (Py.lower error_message)
            && Py.contains "already exists" (Py.lower error_message)
         then msg_bulk_duplicate (in_email input_data)
         else if Py.contains "phone" (Py.lower error_message)
         then msg_phone_format
         else error_message in
       err <- construct "ErrorType" ErrorType_fields ["field"; "message"; "index"]
                (mkErrorType "customer_data" error_message (Z.of_nat index)) ;;
       ret (fst acc, (snd acc ++ [err])%list)).

Fixpoint bulk_loop (env : Env) (index : nat) (input : list CreateCustomerInput)
    (acc : list Customer * list ErrorType)
  : M (list Customer * list ErrorType) :=
  match input with
  | [] => ret acc
  | input_data :: rest =>
      acc' <- bulk_item env index input_data acc ;;
      bulk_loop env (S index) rest acc'
  end.

Definition BulkCreateCustomers_mutate (env : Env) (input : list CreateCustomerInput)
  : M BulkCreateCustomers :=
  acc <- bulk_loop env 0 input ([], []) ;;
  construct "BulkCreateCustomers" BulkCreateCustomers_fields
    ["customers"; "errors"]
    (mkBulkCreateCustomers (fst acc) (snd acc)).

(** *** [CreateProduct.mutate] *)

Definition CreateProduct_mutate (env : Env) (input : CreateProductInput)
  : M CreateProduct :=
  try_except
    (validate_price (in_price input) ;;;
     match in_stock input with
     | Some s => validate_stock s
     | None =>
         raise (TypeError
           "'<' not supported between instances of 'NoneType' and 'int'")
     end ;;;
     full_clean ;;;
     product <- lift (insert_product env (in_product_name input) (in_price input)
                        (match in_stock input with Some s => s | None => 0 end)) ;;
     construct "CreateProduct" CreateProduct_fields
       ["product"; "message"; "success"]
       (mkCreateProduct (Some product) "Product created successfully!" true))
    (fun e =>
       match e with
       | ValidationError _ =>
           let error_message :=
             if Py.contains "price" (Py.lower (str e))
             then "Price must be a positive number"
             else if Py.contains "stock" (Py.lower (str e))
             then "Stock cannot be negative"
             else str e in
           construct "CreateProduct" CreateProduct_fields
             ["product"; "message"; "success"]
             (mkCreateProduct None error_message false)
       | _ =>
           construct "CreateProduct" CreateProduct_fields
             ["product"; "message"; "success"]
             (mkCreateProduct None ("An error occurred: " ++ str e) false)
       end).

(** *** [CreateOrder.mutate] *)

(** The mutation on ids that denote primary keys and are written in plain
    decimal, so that [str(product_id)] is the decimal form of the key.  The
    mutation on the ids as GraphQL delivers them is [create_order] below; on
    such ids the two agree.

    The loop over [input.product_ids]: the products found, and the ids
    that resolve to none, printed. *)
Fixpoint resolve_product_ids (st : Store) (product_ids : list ID)
    (products : list Product) (invalid_product_ids : list string)
  : list Product * list string :=
  match product_ids with
  | [] => (products, invalid_product_ids)
  | product_id :: rest =>
      match get_product st product_id with
      | Some product =>
          resolve_product_ids st rest (products ++ [product])%list invalid_product_ids
      | None =>
          resolve_product_ids st rest products
            (invalid_product_ids ++ [Py.str_Z product_id])%list
      end
  end.

(** [sum(product.price for product in products)] *)
Definition sum_prices (products : list Product) : Decimal :=
  fold_left (fun acc p => acc + product_price p) products 0.

Definition msg_customer_not_found : string := "Customer not found".
Definition msg_no_products : string := "At least one product is required".

Definition CreateOrder_mutate (env : Env) (input : CreateOrderInput)
  : M CreateOrder :=
  try_except
    (st <- get ;;
     match get_customer st (in_customer_id input) with
     | None =>
         construct "CreateOrder" CreateOrder_fields ["order"; "message"; "success"]
           (mkCreateOrder None msg_customer_not_found false)
     | Some customer =>
         match in_product_ids input with
         | [] =>
             construct "CreateOrder" CreateOrder_fields
               ["order"; "message"; "success"]
               (mkCreateOrder None msg_no_products false)
         | _ :: _ =>
             let '(products, invalid_product_ids) :=
               resolve_product_ids st (in_product_ids input) [] [] in
             match invalid_product_ids with
             | _ :: _ =>
                 construct "CreateOrder" CreateOrder_fields
                   ["order"; "message"; "success"]
                   (mkCreateOrder None
                      ("Invalid product IDs: " ++ Py.join ", " invalid_product_ids)
                      false)
             | [] =>
                 let total_amount := sum_prices products in
                 order <- lift (insert_order env customer (in_order_date input)
                                             total_amount) ;;
                 construct "CreateOrder" CreateOrder_fields
                   ["order"; "message"; "success"]
                   (mkCreateOrder (Some order) "Order created successfully!" true)
             end
         end
     end)
    (fun e =>
       construct "CreateOrder" CreateOrder_fields ["order"; "message"; "success"]
         (mkCreateOrder None ("An error occurred: " ++ str e) false)).

(** *** [CreateOrder.mutate] on the ids as delivered

    [CreateOrder_mutate] above takes ids that denote primary keys.  Here
    the ids are what GraphQL delivers: [Customer.objects.get] and
    [Product.objects.get] raise a [ValueError] for an id the ORM cannot
    coerce, which neither [except ... DoesNotExist] catches and the last
    handler answers; and the ids that resolve to no product are recorded with
    [str(product_id)], the text as given. *)
Fixpoint resolve_delivered_ids (st : Store) (product_ids : list GraphQLID)
    (products : list Product) (invalid_product_ids : list string)
  : outcome (list Product * list string) :=
  match product_ids with
  | [] => Return (products, invalid_product_ids)
  | product_id :: rest =>
      match id_key product_id with
      | None => Raise (ValueError (msg_not_a_number product_id))
      | Some key =>
          match get_product st key with
          | Some product =>
              resolve_delivered_ids st rest (products ++ [product])%list
                invalid_product_ids
          | None =>
              resolve_delivered_ids st rest products
                (invalid_product_ids ++ [id_text product_id])%list
          end
      end
  end.

Definition create_order (env : Env) (customer_id : GraphQLID)
    (product_ids : list GraphQLID) (order_date : option DateTime)
  : M CreateOrder :=
  try_except
    (st <- get ;;
     match id_key customer_id with
     | None => raise (ValueError (msg_not_a_number customer_id))
     | Some key =>
         match get_customer st key with
         | None =>
             construct "CreateOrder" CreateOrder_fields
               ["order"; "message"; "success"]
               (mkCreateOrder None msg_customer_not_found false)
         | Some customer =>
             match product_ids with
             | [] =>
                 construct "CreateOrder" CreateOrder_fields
                   ["order"; "message"; "success"]
                   (mkCreateOrder None msg_no_products false)
             | _ :: _ =>
                 match resolve_delivered_ids st product_ids [] [] with
                 | Raise e => raise e
                 | Return (products, invalid_product_ids) =>
                     match invalid_product_ids with
                     | _ :: _ =>
                         construct "CreateOrder" CreateOrder_fields
                           ["order"; "message"; "success"]
                           (mkCreateOrder None
                              ("Invalid product IDs: "
                               ++ Py.join ", " invalid_product_ids)
                              false)
                     | [] =>
                         let total_amount := sum_prices products in
                         order <- lift (insert_order env customer order_date
                                                     total_amount) ;;
                         construct "CreateOrder" CreateOrder_fields
                           ["order"; "message"; "success"]
                           (mkCreateOrder (Some order)
                              "Order created successfully!" true)
                     end
                 end
             end
         end
     end)
    (fun e =>
       construct "CreateOrder" CreateOrder_fields ["order"; "message"; "success"]
         (mkCreateOrder None ("An error occurred: " ++ str e) false)).

(** *** [UpdateLowStockProducts.mutate] *)

Definition low_stock (p : Product) : bool := product_stock p <? 10.

Definition replenish (p : Product) : Product :=
  mkProduct (product_id p) (product_name p) (product_price p)
            (product_stock p + 10) (product_created_at p) (product_updated_at p).

(** The loop over the selected products: [product.stock += 10] and
    [product.save()]. *)
Fixpoint replenish_all (env : Env) (low_stock_products : list Product) : M unit :=
  match low_stock_products with
  | [] => ret tt
  | product :: rest =>
      modify (update_product env (replenish product)) ;;;
      replenish_all env rest
  end.

Definition UpdateLowStockProducts_mutate (env : Env) : M UpdateLowStockProducts :=
  try_except
    (st <- get ;;
     let low_stock_products := filter low_stock (products st) in
     let count := Z.of_nat (List.length low_stock_products) in
     replenish_all env low_stock_products ;;;
     construct "UpdateLowStockProducts" UpdateLowStockProducts_fields
       ["updated_product_list"; "updated_count"; "message"; "success"]
       (mkUpdateLowStockProducts count
          ("Updated " ++ Py.str_Z count ++ " low stock products.") true))
    (fun e =>
       construct "UpdateLowStockProducts" UpdateLowStockProducts_fields
         ["updated_count"; "message"; "success"]
         (mkUpdateLowStockProducts 0 ("An error occurred: " ++ str e) false)).

(** *** The mutation operations as one type *)

Inductive operation : Type :=
| OpCreateCustomer (input : CreateCustomerInput)
| OpBulkCreateCustomers (input : list CreateCustomerInput)
| OpCreateProduct (input : CreateProductInput)
| OpCreateOrder (input : CreateOrderInput)
| OpUpdateLowStockProducts.

(** The store an operation leaves behind. *)
Definition run (env : Env) (op : operation) (st : Store) : Store :=
  match op with
  | OpCreateCustomer input => fst (CreateCustomer_mutate env input st)
  | OpBulkCreateCustomers input => fst (BulkCreateCustomers_mutate env input st)
  | OpCreateProduct input => fst (CreateProduct_mutate env input st)
  | OpCreateOrder input => fst (CreateOrder_mutate env input st)
  | OpUpdateLowStockProducts => fst (UpdateLowStockProducts_mutate env st)
  end.

(** The states the mutation operations reach from the empty store. *)
Inductive reachable : Store -> Prop :=
| reachable_empty : reachable empty_store
| reachable_step : forall env op st,
    reachable st -> reachable (run env op st).

End Mutations.

(* ------------------------------------------------------------------ *)
(** ** The resolvers of [Query] *)

Module Queries.
Import Model Effects.
Local Open Scope Z_scope.

(** *** The sort mechanism

    [QuerySet.order_by] belongs to the ORM, not to this module.  The
    string ["?"] asks for an arbitrary order, one leading ["-"] asks for
    descending order, and what remains must be a name the ORM resolves on
    the entity; anything else is refused with a [FieldError].

    The names the ORM resolves are those [crm/models.py] declares.  That
    file is not part of the sources, so they come in two parts: the columns
    the object types of this module list in [Meta.fields] (and [pk]), as
    tables below; and whatever else the models declare, further columns,
    relations in either direction and the lookups that span them
    ([customer__name], [items], ...), as a parameter [declared] of the
    resolvers.  For a name it resolves, [declared] gives the sort keys that
    name reaches from a row: one key for a column or a relation to one row,
    one key for each related row for a relation to many. *)

Inductive sort_key : Type :=
| KNull
| KInt (z : Z)
| KStr (s : string).

Definition key_leb (a b : sort_key) : bool :=
  match a, b with
  | KNull, _ => true
  | KInt _, KNull => false
  | KInt x, KInt y => x <=? y
  | KInt _, KStr _ => true
  | KStr _, KNull => false
  | KStr _, KInt _ => false
  | KStr x, KStr y => String.leb x y
  end.

Section Sorting.
Context {A : Type}.
Variable key : A -> sort_key.
Variable descending : bool.

(** [before a b]: may [a] stay in front of [b]? *)
Definition before (a b : A) : bool :=
  if descending then key_leb (key b) (key a) else key_leb (key a) (key b).

Fixpoint insert_sorted (a : A) (l : list A) : list A :=
  match l with
  | [] => [a]
  | b :: rest => if before a b then a :: l else b :: insert_sorted a rest
  end.

Definition sort_rows (l : list A) : list A :=
  fold_right insert_sorted [] l.

End Sorting.

Definition strip_minus (field : string) : bool * string :=
  match field with
  | String c rest => if Ascii.eqb c "-" then (true, rest) else (false, field)
  | EmptyString => (false, field)
  end.

(** What the models declare for an entity besides the listed columns. *)
Definition declared_names (A : Type) : Type :=
  string -> option (A -> list sort_key).

Definition nothing_declared {A : Type} : declared_names A := fun _ => None.

(** Ordering by a name that spans a relation joins each row with the rows
    the name reaches: the row comes once for each of them, and once, with a
    null key, when there is none. *)
Definition join_keys {A : Type} (keys : A -> list sort_key) (rows : list A)
  : list (sort_key * A) :=
  flat_map (fun row => match keys row with
                       | [] => [(KNull, row)]
                       | ks => map (fun k => (k, row)) ks
                       end)
           rows.

Definition order_by {A : Type} (columns : string -> option (A -> sort_key))
    (declared : declared_names A) (field : string) (rows : list A)
  : outcome (list A) :=
  if String.eqb field "?" then Return rows
  else
    let '(descending, name) := strip_minus field in
    match columns name with
    | Some key => Return (sort_rows key descending rows)
    | None =>
        match declared name with
        | Some keys =>
            Return (map snd (sort_rows fst descending (join_keys keys rows)))
        | None =>
            Raise (FieldError
                     ("Cannot resolve keyword '" ++ name ++ "' into field."))
        end
    end.

Definition opt_key (o : option string) : sort_key :=
  match o with Some s => KStr s | None => KNull end.

(** The columns of each entity: the names the object types list in
    [Meta.fields], and [pk].  [OrderType] lists [customer], a relation:
    its column is [customer_id], and what ordering by [customer] itself means
    is for the model of [Customer] to say, so that name is left to
    [declared]. *)
Definition customer_columns (name : string) : option (Customer -> sort_key) :=
  if String.eqb name "id" || String.eqb name "pk"
  then Some (fun c => KInt (customer_id c))
  else if String.eqb name "name" then Some (fun c => KStr (customer_name c))
  else if String.eqb name "email" then Some (fun c => KStr (customer_email c))
  else if String.eqb name "phone" then Some (fun c => opt_key (customer_phone c))
  else if String.eqb name "created_at" then Some (fun c => KInt (customer_created_at c))
  else if String.eqb name "updated_at" then Some (fun c => KInt (customer_updated_at c))
  else None.

Definition product_columns (name : string) : option (Product -> sort_key) :=
  if String.eqb name "id" || String.eqb name "pk"
  then Some (fun p => KInt (product_id p))
  else if String.eqb name "name" then Some (fun p => KStr (product_name p))
  else if String.eqb name "price" then Some (fun p => KInt (product_price p))
  else if String.eqb name "stock" then Some (fun p => KInt (product_stock p))
  else if String.eqb name "created_at" then Some (fun p => KInt (product_created_at p))
  else if String.eqb name "updated_at" then Some (fun p => KInt (product_updated_at p))
  else None.

Definition order_columns (name : string) : option (Order -> sort_key) :=
  if String.eqb name "id" || String.eqb name "pk"
  then Some (fun o => KInt (order_id o))
  else if String.eqb name "customer_id"
  then Some (fun o => KInt (order_customer_id o))
  else if String.eqb name "order_date" then Some (fun o => KInt (order_date o))
  else if String.eqb name "status" then Some (fun o => KStr (order_status o))
  else if String.eqb name "total_amount" then Some (fun o => KInt (order_total_amount o))
  else if String.eqb name "created_at" then Some (fun o => KInt (order_created_at o))
  else None.

(** *** Filter and order-by inputs *)

Record OrderByInput : Type := mkOrderByInput {
  ob_field : string;
  ob_direction : option string
}.

Record CustomerFilterInput : Type := mkCustomerFilterInput {
  cf_name : option string;
  cf_email : option string;
  cf_created_at_gte : option DateTime;
  cf_created_at_lte : option DateTime;
  cf_phone_pattern : option string
}.

(** [price_gte] and [price_lte] are not input fields: the class binds them
    to [Decimal()], the number zero of the [decimal] module. *)
Record ProductFilterInput : Type := mkProductFilterInput {
  pf_name : option string;
  pf_stock_gte : option Z;
  pf_stock_lte : option Z;
  pf_low_stock : option bool
}.

Definition ProductFilterInput_price_gte : Decimal := 0.
Definition ProductFilterInput_price_lte : Decimal := 0.

(** Likewise for [total_amount_gte] and [total_amount_lte]. *)
Record OrderFilterInput : Type := mkOrderFilterInput {
  of_order_date_gte : option DateTime;
  of_order_date_lte : option DateTime;
  of_customer_name : option string;
  of_product_name : option string;
  of_product_id : option ID
}.

Definition OrderFilterInput_total_amount_gte : Decimal := 0.
Definition OrderFilterInput_total_amount_lte : Decimal := 0.

(** *** Lookups *)

(** [__icontains] *)
Definition icontains (needle hay : string) : bool :=
  Py.contains (Py.lower needle) (Py.lower hay).

(** A condition that is only added when its argument is true in Python's
    sense. *)
Definition when_str {A : Type} (o : option string) (test : string -> A -> bool)
  : A -> bool :=
  fun row => match o with
             | Some s => if Py.truthy s then test s row else true
             | None => true
             end.

Definition when_some {A B : Type} (o : option B) (test : B -> A -> bool)
  : A -> bool :=
  fun row => match o with Some b => test b row | None => true end.

Definition when_num {A : Type} (o : option Z) (test : Z -> A -> bool)
  : A -> bool :=
  fun row => match o with
             | Some z => if z =? 0 then true else test z row
             | None => true
             end.

(** The part shared by the three resolvers: [field = order_by.field],
    turned into ["-" + field] when the direction is ["desc"]. *)
Definition ordering_argument (ob : OrderByInput) : string :=
  match ob_direction ob with
  | Some d => if String.eqb d "desc" then "-" ++ ob_field ob else ob_field ob
  | None => ob_field ob
  end.

Definition apply_ordering {A : Type} (columns : string -> option (A -> sort_key))
    (declared : declared_names A) (ob : option OrderByInput) (rows : list A)
  : outcome (list A) :=
  match ob with
  | Some o => order_by columns declared (ordering_argument o) rows
  | None => Return rows
  end.

(** *** [resolve_customers] *)
Definition resolve_customers (declared : declared_names Customer) (st : Store)
    (filters : option CustomerFilterInput) (ob : option OrderByInput)
  : outcome (list Customer) :=
  let queryset := customers st in
  let queryset :=
    match filters with
    | Some f =>
        filter (fun c =>
                  when_str (cf_name f) (fun s c => icontains s (customer_name c)) c
                  && when_str (cf_email f) (fun s c => icontains s (customer_email c)) c
                  && when_some (cf_created_at_gte f)
                       (fun d c => d <=? customer_created_at c) c
                  && when_some (cf_created_at_lte f)
                       (fun d c => customer_created_at c <=? d) c
                  && when_str (cf_phone_pattern f)
                       (fun s c => match customer_phone c with
                                   | Some ph => Py.startswith s ph
                                   | None => false
                                   end) c)
               queryset
    | None => queryset
    end in
  apply_ordering customer_columns declared ob queryset.

(** *** [resolve_products] *)
Definition resolve_products (declared : declared_names Product) (st : Store)
    (filters : option ProductFilterInput) (ob : option OrderByInput)
  : outcome (list Product) :=
  let queryset := products st in
  let queryset :=
    match filters with
    | Some f =>
        filter (fun p =>
                  when_str (pf_name f) (fun s p => icontains s (product_name p)) p
                  && when_num (Some ProductFilterInput_price_gte)
                       (fun z p => z <=? product_price p) p
                  && when_num (Some ProductFilterInput_price_lte)
                       (fun z p => product_price p <=? z) p
                  && when_num (pf_stock_gte f) (fun z p => z <=? product_stock p) p
                  && when_num (pf_stock_lte f) (fun z p => product_stock p <=? z) p
                  && match pf_low_stock f with
                     | Some true => product_stock p <? 10
                     | _ => true
                     end)
               queryset
    | None => queryset
    end in
  apply_ordering product_columns declared ob queryset.

(** *** [resolve_orders] *)

Definition order_eqb (a b : Order) : bool :=
  (order_id a =? order_id b) && (order_customer_id a =? order_customer_id b)
  && (order_date a =? order_date b) && String.eqb (order_status a) (order_status b)
  && (order_total_amount a =? order_total_amount b)
  && (order_created_at a =? order_created_at b).

(** [.distinct()] *)
Fixpoint distinct (rows : list Order) : list Order :=
  match rows with
  | [] => []
  | o :: rest => o :: filter (fun x => negb (order_eqb o x)) (distinct rest)
  end.

Definition customer_name_icontains (st : Store) (s : string) (o : Order) : bool :=
  match get_customer st (order_customer_id o) with
  | Some c => icontains s (customer_name c)
  | None => false
  end.

Definition item_product_name_icontains (st : Store) (s : string) (it : OrderItem)
  : bool :=
  match get_product st (item_product_id it) with
  | Some p => icontains s (product_name p)
  | None => false
  end.

(** A condition on [items__...] joins the order with its items: the order
    comes once for each item that satisfies it. *)
Definition join_items (st : Store) (test : OrderItem -> bool) (rows : list Order)
  : list Order :=
  flat_map (fun o => map (fun _ => o) (filter test (items_of st o))) rows.

Definition resolve_orders (declared : declared_names Order) (st : Store)
    (filters : option OrderFilterInput) (ob : option OrderByInput)
  : outcome (list Order) :=
  let queryset := orders st in
  let queryset :=
    match filters with
    | Some f =>
        let queryset :=
          filter (fun o =>
                    when_num (Some OrderFilterInput_total_amount_gte)
                      (fun z o => z <=? order_total_amount o) o
                    && when_num (Some OrderFilterInput_total_amount_lte)
                         (fun z o => order_total_amount o <=? z) o
                    && when_some (of_order_date_gte f)
                         (fun d o => d <=? order_date o) o
                    && when_some (of_order_date_lte f)
                         (fun d o => order_date o <=? d) o
                    && when_str (of_customer_name f) (customer_name_icontains st) o)
                 queryset in
        let queryset :=
          match of_product_id f with
          | Some pid => join_items st (fun it => item_product_id it =? pid) queryset
          | None => queryset
          end in
        if Py.truthy_opt (of_product_name f)
        then distinct
               (join_items st
                  (item_product_name_icontains st
                     (match of_product_name f with Some s => s | None => "" end))
                  queryset)
        else queryset
    | None => queryset
    end in
  apply_ordering order_columns declared ob queryset.

(** *** [resolve_customer_orders]

    The resolver on a customer id that denotes a primary key.
    [order_date] is a column, so nothing else the models declare is
    consulted.  What the resolver does with the id as GraphQL delivers it is
    [customer_orders] below. *)
Definition resolve_customer_orders (st : Store) (customer_id : ID)
    (status : option string) : outcome (list Order) :=
  let body :=
    let queryset := filter (fun o => order_customer_id o =? customer_id) (orders st) in
    let queryset :=
      if Py.truthy_opt status
      then filter (fun o => String.eqb (order_status o)
                              (match status with Some s => s | None => "" end))
                  queryset
      else queryset in
    order_by order_columns nothing_declared "-order_date" queryset in
  match body with
  | Raise (DoesNotExist _) => Return []
  | other => other
  end.


(** *** [resolve_search_customers] *)






(** *** [resolve_available_products] *)
Definition resolve_available_products (st : Store) : outcome (list Product) :=
  Return (filter (fun p => 0 <? product_stock p) (products st)).

(** *** [resolve_products_by_price_range] *)
Definition resolve_products_by_price_range (st : Store)
    (min_price max_price : option Decimal) : outcome (list Product) :=
  let queryset := products st in
  let queryset :=
    match min_price with
    | Some lo => filter (fun p => lo <=? product_price p) queryset
    | None => queryset
    end in
  let queryset :=
    match max_price with
    | Some hi => filter (fun p => product_price p <=? hi) queryset
    | None => queryset
    end in
  Return queryset.

(** *** [resolve_high_value_orders] *)
Definition resolve_high_value_orders (st : Store) (min_amount : Decimal)
  : outcome (list Order) :=
  order_by order_columns nothing_declared "-total_amount"
    (filter (fun o => min_amount <=? order_total_amount o) (orders st)).

(** *** [OrderType.resolve_customer_name], [OrderType.resolve_customer_email] *)
Definition resolve_customer_name (st : Store) (o : Order) : option string :=
  match get_customer st (order_customer_id o) with
  | Some c => Some (customer_name c)
  | None => None
  end.

Definition resolve_customer_email (st : Store) (o : Order) : option string :=
  match get_customer st (order_customer_id o) with
  | Some c => Some (customer_email c)
  | None => None
  end.

End Queries.

(* ------------------------------------------------------------------ *)
(** ** The [Mutation] root and the schema *)

Module Api.

(** [str.capitalize] *)
Definition capitalize (s : string) : string :=
  match s with
  | EmptyString => EmptyString
  | String c rest => String (Py.upper_char c) (Py.lower rest)
  end.

(** [s.split("_")] *)
Fixpoint split_underscore (s : string) (current : string) : list string :=
  match s with
  | EmptyString => [current]
  | String c rest =>
      if Ascii.eqb c "_" then current :: split_underscore rest ""
      else split_underscore rest (current ++ String c "")
  end.

(** The name under which graphene exposes an attribute. *)
Definition to_camel_case (snake_str : string) : string :=
  match split_underscore snake_str "" with
  | [] => ""
  | first :: others =>
      first ++ concat ""
        (map (fun x => match x with EmptyString => "_" | _ => capitalize x end) others)
  end.

(** The attributes of [class Query] that are fields. *)
Definition Query : list string :=
  ["all_customers"; "all_products"; "all_orders";
   "customers"; "products"; "orders";
   "search_customers"; "available_products"; "products_by_price_range";
   "customer_orders"; "high_value_orders"].

(** The attributes of [class Mutation]. *)
Definition Mutation : list string :=
  ["create_customer"; "bulk_create_customers"; "create_product"; "create_order"].

Record Schema : Type := mkSchema {
  schema_query : option (list string);
  schema_mutation : option (list string)
}.

(** [schema = graphene.Schema(mutation=Mutation)] *)
Definition schema : Schema := mkSchema None (Some Mutation).

Definition root_fields (root : option (list string)) : list string :=
  match root with
  | Some attrs => map to_camel_case attrs
  | None => []
  end.

(** The operations a request can name. *)
Definition operations (s : Schema) : list string :=
  (root_fields (schema_query s) ++ root_fields (schema_mutation s))%list.

Definition exposes (s : Schema) (operation : string) : bool :=
  existsb (String.eqb operation) (operations s).

Definition listed_queries : list string :=
  ["customers"; "products"; "orders"; "searchCustomers"; "availableProducts";
   "productsByPriceRange"; "customerOrders"; "highValueOrders"].

Definition listed_mutations : list string :=
  ["createCustomer"; "bulkCreateCustomers"; "createProduct"; "createOrder";
   "updateLowStockProducts"].

End Api.

(* ------------------------------------------------------------------ *)
(** ** Notions used to state the properties *)

Module Props.
Import Model Effects Validation Mutations.
Local Open Scope crm_scope.
Local Open Scope Z_scope.

(** The validation both customer mutations run on an input. *)
Definition validate_customer_input (input : CreateCustomerInput) : M unit :=
  validate_email (in_email input) ;;; validate_phone (in_phone input).

(** Does the input fail validation against this store? *)
Definition fails_validation (st : Store) (input : CreateCustomerInput) : bool :=
  match snd (validate_customer_input input st) with
  | Return _ => false
  | Raise _ => true
  end.

(** The sum of a list of prices, written without the accumulator of
    [sum_prices]. *)
Definition total_of (products : list Product) : Decimal :=
  fold_right Z.add 0 (map product_price products).

(** The store as the input at position [i] of a bulk call finds it: the one
    the call reaches on the inputs before it. *)
Definition store_before (env : Env) (st : Store)
    (input : list CreateCustomerInput) (i : nat) : Store :=
  fst (BulkCreateCustomers_mutate env (firstn i input) st).

Definition dummy_input : CreateCustomerInput := mkCreateCustomerInput "" "" None.

(** Does the input at position [i] of a bulk call fail validation when its
    turn comes? *)
Definition fails_at (env : Env) (st : Store)
    (input : list CreateCustomerInput) (i : nat) : bool :=
  fails_validation (store_before env st input i) (nth i input dummy_input).

(** The positions of a bulk call that fail validation. *)
Definition failing_positions (env : Env) (st : Store)
    (input : list CreateCustomerInput) : list nat :=
  filter (fails_at env st input) (seq 0 (List.length input)).

(** Is this phone number one [validate_phone] refuses? *)
Definition phone_rejected (phone : option string) : bool :=
  match phone with
  | Some p => Py.truthy p && negb (phone_format_ok p)
  | None => false
  end.

(** The error object a bulk call records for an input that fails
    validation at position [i], by the check that fails first. *)
Definition recorded_error (st : Store) (input : CreateCustomerInput) (i : nat)
  : ErrorType :=
  mkErrorType "customer_data"
    (if negb (email_format_ok (in_email input))
     then str (ValidationError msg_invalid_email)
     else if email_exists st (in_email input)
     then msg_bulk_duplicate (in_email input)
     else msg_phone_format)
    (Z.of_nat i).

(** The positions of a bulk call that pass validation. *)
Definition passing_positions (env : Env) (st : Store)
    (input : list CreateCustomerInput) : list nat :=
  filter (fun i => negb (fails_at env st input i)) (seq 0 (List.length input)).

(** What a stored customer keeps of the input it was created from. *)
Definition customer_data (c : Customer) : string * string * option string :=
  (customer_name c, customer_email c, customer_phone c).

Definition input_data (input : CreateCustomerInput)
  : string * string * option string :=
  (in_name input, in_email input, in_phone input).

(** Section 3: stored emails have the validated format. *)
Definition emails_well_formed (st : Store) : Prop :=
  Forall (fun e => email_format_ok e = true) (emails st).

(** Section 3: every order belongs to an existing customer. *)
Definition orders_have_customers (st : Store) : Prop :=
  Forall (fun o => get_customer st (order_customer_id o) <> None) (orders st).

(** Primary keys of products are unique. *)
Definition product_ids_unique (st : Store) : Prop :=
  NoDup (map product_id (products st)).

(** The ids of a list that resolve to no product, and the products the
    others resolve to, both in the order of the list. *)
Definition unresolved_ids (st : Store) (ids : list ID) : list ID :=
  filter (fun i => match get_product st i with Some _ => false | None => true end)
         ids.

(** Among ids as delivered, those that denote a key no product has. *)
Definition unresolved_delivered (st : Store) (ids : list GraphQLID)
  : list GraphQLID :=
  filter (fun i => match id_key i with
                   | Some key => match get_product st key with
                                 | Some _ => false
                                 | None => true
                                 end
                   | None => false
                   end)
         ids.

Definition resolved_products (st : Store) (ids : list ID) : list Product :=
  flat_map (fun i => match get_product st i with Some p => [p] | None => [] end)
           ids.

(** Section 3: prices are positive and stocks are not negative; and the
    primary keys of products are distinct and below the next key. *)
Definition products_well_formed (st : Store) : Prop :=
  Forall (fun p => 0 < product_price p /\ 0 <= product_stock p
                   /\ product_id p < next_product_id st)
         (products st)
  /\ product_ids_unique st.



(** *** The bulk loop, turn by turn *)

(** The state a bulk call is in between two inputs: the store, and the two
    lists. *)
Definition bulk_state : Type := (Store * (list Customer * list ErrorType))%type.

(** One turn of the loop as a function on that state. *)
Definition bulk_step (env : Env) (i : nat) (x : CreateCustomerInput)
    (s : bulk_state) : bulk_state :=
  if fails_validation (fst s) x
  then (fst s, (fst (snd s), (snd (snd s) ++ [recorded_error (fst s) x i])%list))
  else (fst (insert_customer env (in_name x) (in_email x) (in_phone x) (fst s)),
        ((fst (snd s)
          ++ [snd (insert_customer env (in_name x) (in_email x) (in_phone x)
                     (fst s))])%list,
         snd (snd s))).

Fixpoint bulk_steps (env : Env) (i : nat) (input : list CreateCustomerInput)
    (s : bulk_state) : bulk_state :=
  match input with
  | [] => s
  | x :: rest => bulk_steps env (S i) rest (bulk_step env i x s)
  end.

(** What [save()] writes for a product whose stock was raised. *)
Definition replenished (env : Env) (p : Product) : Product :=
  mkProduct (product_id p) (product_name p) (product_price p)
            (product_stock p + 10) (product_created_at p) (now env).

(** *** Sample data for the worked examples *)

Definition sample_env : Env := mkEnv 100 "pending".

Definition sample_customer : Customer :=
  mkCustomer 1 "Ann" "ann@example.com" None 50 50.

Definition sample_store : Store :=
  mkStore [sample_customer]
          [mkProduct 1 "Pen" 1000 3 50 50; mkProduct 2 "Ink" 1550 30 50 50]
          [] [] 2 3 1.

(** A sequence of mutations run from one store. *)
Definition replay (env : Env) (ops : list operation) (st : Store) : Store :=
  fold_left (fun s op => run env op s) ops st.

Definition sample_history : list operation :=
  [OpCreateCustomer (mkCreateCustomerInput "Ann" "ann@example.com" None);
   OpCreateProduct (mkCreateProductInput "Pen" 1000 (Some 3));
   OpCreateProduct (mkCreateProductInput "Ink" 1550 (Some 30));
   OpCreateOrder (mkCreateOrderInput 1 [1; 2] None)].

Definition sample_directory : Store :=
  mkStore [mkCustomer 1 "Ann" "ann@example.com" None 50 50;
           mkCustomer 2 "Zed" "zed@example.com" None 51 51;
           mkCustomer 3 "Bob" "bob@example.com" None 52 52]
          [] [] [] 4 1 1.

Definition sample_order : Order := mkOrder 1 1 60 "pending" 2550 60.

Definition sample_store_with_order : Store :=
  mkStore (customers sample_store) (products sample_store) [sample_order] [] 2 3 2.

End Props.

(* ------------------------------------------------------------------ *)
(** ** Properties *)

Import Model Effects Validation Mutations Queries Api Props.
Local Open Scope Z_scope.
Unset Implicit Arguments.

(** *** Building result objects *)

Lemma construct_declared :
  forall (A : Type) (cls : string) (declared kwargs : list string) (obj : A),
    invalid_kwarg declared kwargs = None ->
    construct cls declared kwargs obj = ret obj.
Proof.
  intros A cls declared kwargs obj H. unfold construct. now rewrite H.
Qed.

Lemma construct_CreateCustomer : forall obj : CreateCustomer,
  construct "CreateCustomer" CreateCustomer_fields
    ["customer"; "message"; "success"] obj = ret obj.
Proof. intros; apply construct_declared; reflexivity. Qed.

Lemma construct_CreateProduct : forall obj : CreateProduct,
  construct "CreateProduct" CreateProduct_fields
    ["product"; "message"; "success"] obj = ret obj.
Proof. intros; apply construct_declared; reflexivity. Qed.

Lemma construct_CreateOrder : forall obj : CreateOrder,
  construct "CreateOrder" CreateOrder_fields
    ["order"; "message"; "success"] obj = ret obj.
Proof. intros; apply construct_declared; reflexivity. Qed.

Lemma construct_ErrorType : forall obj : ErrorType,
  construct "ErrorType" ErrorType_fields ["field"; "message"; "index"] obj = ret obj.
Proof. intros; apply construct_declared; reflexivity. Qed.

Lemma construct_BulkCreateCustomers : forall obj : BulkCreateCustomers,
  construct "BulkCreateCustomers" BulkCreateCustomers_fields
    ["customers"; "errors"] obj = ret obj.
Proof. intros; apply construct_declared; reflexivity. Qed.

Lemma construct_UpdateLowStockProducts_failure : forall obj : UpdateLowStockProducts,
  construct "UpdateLowStockProducts" UpdateLowStockProducts_fields
    ["updated_count"; "message"; "success"] obj = ret obj.
Proof. intros; apply construct_declared; reflexivity. Qed.

(** The keyword [updated_product_list] of the success branch is not a
    field of the class. *)
Lemma construct_UpdateLowStockProducts_success : forall obj : UpdateLowStockProducts,
  construct "UpdateLowStockProducts" UpdateLowStockProducts_fields
    ["updated_product_list"; "updated_count"; "message"; "success"] obj
  = raise (TypeError
      "'updated_product_list' is an invalid keyword argument for UpdateLowStockProducts").
Proof. intros; reflexivity. Qed.

(** *** The schema *)

(** C1.  The constructed schema is [graphene.Schema(mutation=Mutation)]:
    it has no query root, and its mutation root has four fields.  The
    operations a request can name are the four create mutations; none of the
    eight listed queries is among them, and neither is
    [updateLowStockProducts].  Had the schema been given [Query] as its
    query root and had [Mutation] a field for [UpdateLowStockProducts], all
    thirteen listed operations would be exposed. *)
Theorem schema_exposes_only_create_mutations :
  operations schema
    = ["createCustomer"; "bulkCreateCustomers"; "createProduct"; "createOrder"]
  /\ forallb (fun q => negb (exposes schema q)) listed_queries = true
  /\ exposes schema "updateLowStockProducts" = false
  /\ forallb (exposes (mkSchema (Some Query)
                         (Some (Mutation ++ ["update_low_stock_products"])%list)))
             (listed_queries ++ listed_mutations)%list = true.
Proof. repeat split; reflexivity. Qed.

(** *** [CreateOrder] *)

Lemma sum_prices_from : forall (ps : list Product) (acc : Decimal),
  fold_left (fun a p => a + product_price p) ps acc
  = acc + total_of ps.
Proof.
  induction ps as [|p ps IH]; intros acc; cbn.
  - lia.
  - rewrite IH. unfold total_of. lia.
Qed.

Lemma sum_prices_total_of : forall ps : list Product,
  sum_prices ps = total_of ps.
Proof. intros. unfold sum_prices. rewrite sum_prices_from. lia. Qed.

Lemma resolve_product_ids_found :
  forall (st : Store) (ids : list ID) (found : list Product),
    Forall2 (fun i p => get_product st i = Some p) ids found ->
    forall (acc : list Product) (invalid : list string),
      resolve_product_ids st ids acc invalid
      = ((acc ++ found)%list, invalid).
Proof.
  induction 1 as [|i p ids found Hi _ IH]; intros acc invalid; cbn.
  - now rewrite app_nil_r.
  - rewrite Hi, IH, <- app_assoc. reflexivity.
Qed.

(** The loop never drops an id: each one ends in one of the two lists. *)
Lemma resolve_product_ids_length :
  forall (st : Store) (ids : list ID) (acc : list Product)
         (invalid : list string),
    let '(ps, bad) := resolve_product_ids st ids acc invalid in
    (List.length ps + List.length bad
     = List.length acc + List.length invalid + List.length ids)%nat.
Proof.
  induction ids as [|i ids IH]; intros acc invalid; cbn.
  - lia.
  - destruct (get_product st i) as [p|].
    + specialize (IH (acc ++ [p])%list invalid).
      destruct (resolve_product_ids st ids (acc ++ [p]) invalid).
      rewrite length_app in IH. cbn in IH. lia.
    + specialize (IH acc (invalid ++ [Py.str_Z i])%list).
      destruct (resolve_product_ids st ids acc (invalid ++ [Py.str_Z i])).
      rewrite length_app in IH. cbn in IH. lia.
Qed.

(** C2.  When the customer id resolves, and the list of product ids is not
    empty and resolves id by id to [found], [CreateOrder.mutate] returns
    success with the order it saved; that order is appended to the orders of
    the store, belongs to the customer, and its total is the sum of the
    prices of [found] as the store holds them at the call. *)
Theorem create_order_total_is_sum_of_prices :
  forall (env : Env) (st : Store) (input : CreateOrderInput)
         (customer : Customer) (found : list Product),
    get_customer st (in_customer_id input) = Some customer ->
    in_product_ids input <> [] ->
    Forall2 (fun i p => get_product st i = Some p) (in_product_ids input) found ->
    exists (st' : Store) (order : Order),
      CreateOrder_mutate env input st
        = (st', Return (mkCreateOrder (Some order) "Order created successfully!" true))
      /\ orders st' = (orders st ++ [order])%list
      /\ order_customer_id order = customer_id customer
      /\ order_total_amount order = total_of found.
Proof.
  intros env st input customer found Hc Hne Hall.
  unfold CreateOrder_mutate, try_except, bind, get.
  rewrite Hc.
  destruct (in_product_ids input) as [|i ids] eqn:Hids; [congruence|].
  rewrite (resolve_product_ids_found _ _ _ Hall). cbn [app].
  unfold lift, insert_order. cbv beta iota zeta.
  rewrite construct_CreateOrder. unfold ret.
  eexists; eexists; split; [reflexivity|].
  cbn. repeat split. apply sum_prices_total_of.
Qed.

(** The example of section 8: prices 10.00 and 15.50 give 25.50. *)
Lemma create_order_total_is_sum_of_prices_witness :
  exists (st' : Store) (order : Order),
    CreateOrder_mutate sample_env (mkCreateOrderInput 1 [1; 2] None) sample_store
      = (st', Return (mkCreateOrder (Some order) "Order created successfully!" true))
    /\ orders st' = (orders sample_store ++ [order])%list
    /\ order_customer_id order = 1
    /\ order_total_amount order = 2550.
Proof.
  apply (create_order_total_is_sum_of_prices sample_env sample_store
           (mkCreateOrderInput 1 [1; 2] None) sample_customer
           (products sample_store)).
  - reflexivity.
  - discriminate.
  - repeat constructor.
Defined.

(** No mutation writes the order-item relation. *)
Lemma replenish_all_order_items : forall (env : Env) (l : list Product) (st : Store),
  order_items (fst (replenish_all env l st)) = order_items st
  /\ orders (fst (replenish_all env l st)) = orders st
  /\ customers (fst (replenish_all env l st)) = customers st.
Proof.
  induction l as [|p l IH]; intros st; cbn.
  - auto.
  - unfold bind, modify. cbn. destruct (IH (update_product env (replenish p) st))
      as (H1 & H2 & H3).
    destruct (replenish_all env l (update_product env (replenish p) st))
      as [st' [u|e]]; cbn in *; auto.
Qed.




(** *** The validation of a customer input *)

Lemma validate_customer_input_spec :
  forall (input : CreateCustomerInput) (st : Store),
    validate_customer_input input st
    = (st,
       if negb (email_format_ok (in_email input))
       then Raise (ValidationError msg_invalid_email)
       else if email_exists st (in_email input)
       then Raise (ValidationError msg_email_exists)
       else if phone_rejected (in_phone input)
       then Raise (ValidationError msg_invalid_phone)
       else Return tt).
Proof.
  intros input st.
  unfold validate_customer_input, validate_email, validate_phone, phone_rejected,
    bind, get, raise, ret.
  destruct (email_format_ok (in_email input)); cbn [negb]; [|reflexivity].
  destruct (email_exists st (in_email input)); [reflexivity|].
  destruct (in_phone input) as [p|]; [|reflexivity].
  destruct (Py.truthy p); [|reflexivity].
  destruct (phone_format_ok p); reflexivity.
Qed.

Lemma fails_validation_spec :
  forall (st : Store) (input : CreateCustomerInput),
    fails_validation st input
    = negb (email_format_ok (in_email input))
      || email_exists st (in_email input)
      || phone_rejected (in_phone input).
Proof.
  intros st input. unfold fails_validation.
  rewrite validate_customer_input_spec. cbn [snd].
  destruct (email_format_ok (in_email input)); cbn [negb orb]; [|reflexivity].
  destruct (email_exists st (in_email input)); cbn [orb]; [reflexivity|].
  destruct (phone_rejected (in_phone input)); reflexivity.
Qed.

(** *** [CreateCustomer] *)

Lemma create_customer_spec :
  forall (env : Env) (input : CreateCustomerInput) (st : Store),
    CreateCustomer_mutate env input st
    = if negb (email_format_ok (in_email input))
      then (st, Return (mkCreateCustomer None msg_duplicate_email false))
      else if email_exists st (in_email input)
      then (st, Return (mkCreateCustomer None msg_duplicate_email false))
      else if phone_rejected (in_phone input)
      then (st, Return (mkCreateCustomer None msg_phone_format false))
      else (fst (insert_customer env (in_name input) (in_email input)
                                 (in_phone input) st),
            Return (mkCreateCustomer
                      (Some (snd (insert_customer env (in_name input)
                                    (in_email input) (in_phone input) st)))
                      "Customer created successfully!" true)).
Proof.
  intros env input st.
  unfold CreateCustomer_mutate, try_except, validate_email, validate_phone,
    phone_rejected, full_clean, bind, get, raise, ret, lift, insert_customer.
  destruct (email_format_ok (in_email input)); cbn [negb]; [|reflexivity].
  destruct (email_exists st (in_email input)); [reflexivity|].
  destruct (in_phone input) as [p|]; [|reflexivity].
  destruct (Py.truthy p); [|reflexivity].
  destruct (phone_format_ok p); reflexivity.
Qed.

(** C6.  An address that is not well formed is answered with the
    duplicate-email message, on a store that holds no customer at all: the
    handler looks for the word [email] in the text of the error, and the
    text of the format error has it too.  Nothing is written. *)
Theorem create_customer_reports_bad_format_as_duplicate :
  email_format_ok "not-an-email" = false
  /\ email_exists empty_store "not-an-email" = false
  /\ CreateCustomer_mutate sample_env
       (mkCreateCustomerInput "Ann" "not-an-email" None) empty_store
     = (empty_store,
        Return (mkCreateCustomer None
                  "A customer with this email already exists." false))
  /\ (exists errors,
        snd (BulkCreateCustomers_mutate sample_env
               [mkCreateCustomerInput "Ann" "not-an-email" None] empty_store)
        = Return (mkBulkCreateCustomers [] errors)
        /\ map error_message errors = ["['Please enter a valid email address.']"]).
Proof.
  repeat split; try reflexivity.
  eexists. split; reflexivity.
Qed.

(** Whatever the check that fails, [CreateCustomer.mutate] answers with
    [success=false] and writes nothing. *)
Lemma create_customer_failure_writes_nothing :
  forall (env : Env) (input : CreateCustomerInput) (st : Store),
    fails_validation st input = true ->
    exists message : string,
      CreateCustomer_mutate env input st
      = (st, Return (mkCreateCustomer None message false)).
Proof.
  intros env input st H. rewrite fails_validation_spec in H.
  rewrite create_customer_spec.
  destruct (email_format_ok (in_email input)); cbn [negb] in *;
    [|eexists; reflexivity].
  destruct (email_exists st (in_email input)); [eexists; reflexivity|].
  destruct (phone_rejected (in_phone input)); [eexists; reflexivity|].
  discriminate.
Qed.

(** *** [BulkCreateCustomers] *)

Lemma bulk_item_spec :
  forall (env : Env) (i : nat) (x : CreateCustomerInput)
         (acc : list Customer * list ErrorType) (st : Store),
    bulk_item env i x acc st
    = if fails_validation st x
      then (st, Return (fst acc, (snd acc ++ [recorded_error st x i])%list))
      else (fst (insert_customer env (in_name x) (in_email x) (in_phone x) st),
            Return ((fst acc
                     ++ [snd (insert_customer env (in_name x) (in_email x)
                                (in_phone x) st)])%list,
                    snd acc)).
Proof.
  intros env i x acc st. rewrite fails_validation_spec.
  unfold bulk_item, try_except, validate_email, validate_phone, phone_rejected,
    recorded_error, full_clean, bind, get, raise, ret, lift, insert_customer.
  destruct (email_format_ok (in_email x)); cbn [negb orb]; [|reflexivity].
  destruct (email_exists st (in_email x)); cbn [orb]; [reflexivity|].
  destruct (in_phone x) as [p|]; [|reflexivity].
  destruct (Py.truthy p); [|reflexivity].
  destruct (phone_format_ok p); reflexivity.
Qed.

Lemma bulk_loop_steps :
  forall (env : Env) (input : list CreateCustomerInput) (i : nat)
         (acc : list Customer * list ErrorType) (st : Store),
    bulk_loop env i input acc st
    = (fst (bulk_steps env i input (st, acc)),
       Return (snd (bulk_steps env i input (st, acc)))).
Proof.
  induction input as [|x rest IH]; intros i acc st; cbn [bulk_loop bulk_steps].
  - reflexivity.
  - unfold bind. rewrite bulk_item_spec. unfold bulk_step. cbn [fst snd].
    destruct (fails_validation st x); apply IH.
Qed.

Lemma bulk_steps_app :
  forall (env : Env) (l1 l2 : list CreateCustomerInput) (i : nat) (s : bulk_state),
    bulk_steps env i (l1 ++ l2) s
    = bulk_steps env (i + List.length l1) l2 (bulk_steps env i l1 s).
Proof.
  induction l1 as [|x l1 IH]; intros l2 i s; cbn [app bulk_steps List.length].
  - now rewrite Nat.add_0_r.
  - rewrite IH. f_equal. lia.
Qed.

Lemma bulk_mutate_steps :
  forall (env : Env) (input : list CreateCustomerInput) (st : Store),
    BulkCreateCustomers_mutate env input st
    = (fst (bulk_steps env 0 input (st, ([], []))),
       Return (mkBulkCreateCustomers
                 (fst (snd (bulk_steps env 0 input (st, ([], [])))))
                 (snd (snd (bulk_steps env 0 input (st, ([], []))))))).
Proof.
  intros env input st. unfold BulkCreateCustomers_mutate, bind.
  rewrite bulk_loop_steps, construct_BulkCreateCustomers. reflexivity.
Qed.

Lemma store_before_steps :
  forall (env : Env) (st : Store) (input : list CreateCustomerInput) (i : nat),
    store_before env st input i
    = fst (bulk_steps env 0 (firstn i input) (st, ([], []))).
Proof.
  intros. unfold store_before. now rewrite bulk_mutate_steps.
Qed.

Lemma fails_at_last :
  forall (env : Env) (st : Store) (l : list CreateCustomerInput)
         (x : CreateCustomerInput),
    fails_at env st (l ++ [x]) (List.length l)
    = fails_validation (fst (bulk_steps env 0 l (st, ([], [])))) x.
Proof.
  intros. unfold fails_at. rewrite store_before_steps.
  rewrite firstn_app, Nat.sub_diag, firstn_all. cbn [firstn]. rewrite app_nil_r.
  now rewrite nth_middle.
Qed.

Lemma fails_at_earlier :
  forall (env : Env) (st : Store) (l : list CreateCustomerInput)
         (x : CreateCustomerInput) (i : nat),
    (i < List.length l)%nat ->
    fails_at env st (l ++ [x]) i = fails_at env st l i.
Proof.
  intros env st l x i Hi. unfold fails_at. rewrite !store_before_steps.
  rewrite firstn_app.
  replace (i - List.length l)%nat with 0%nat by lia.
  cbn [firstn]. rewrite app_nil_r.
  now rewrite app_nth1 by assumption.
Qed.

Lemma filter_positions_snoc :
  forall (env : Env) (st : Store) (l : list CreateCustomerInput)
         (x : CreateCustomerInput) (keep : bool -> bool),
    filter (fun i => keep (fails_at env st (l ++ [x]) i))
           (seq 0 (List.length (l ++ [x])))
    = (filter (fun i => keep (fails_at env st l i)) (seq 0 (List.length l))
       ++ (if keep (fails_validation (fst (bulk_steps env 0 l (st, ([], [])))) x)
           then [List.length l] else []))%list.
Proof.
  intros env st l x keep.
  rewrite length_app. cbn [List.length]. rewrite Nat.add_1_r, seq_S.
  rewrite filter_app. cbn [filter plus]. rewrite fails_at_last. f_equal.
  apply filter_ext_in. intros i Hi. apply in_seq in Hi.
  rewrite fails_at_earlier by lia. reflexivity.
Qed.

Lemma store_before_earlier :
  forall (env : Env) (st : Store) (l : list CreateCustomerInput)
         (x : CreateCustomerInput) (i : nat),
    (i < List.length l)%nat ->
    store_before env st (l ++ [x]) i = store_before env st l i.
Proof.
  intros env st l x i Hi. rewrite !store_before_steps, firstn_app.
  replace (i - List.length l)%nat with 0%nat by lia.
  cbn [firstn]. now rewrite app_nil_r.
Qed.

Lemma store_before_last :
  forall (env : Env) (st : Store) (l : list CreateCustomerInput)
         (x : CreateCustomerInput),
    store_before env st (l ++ [x]) (List.length l)
    = fst (bulk_steps env 0 l (st, ([], []))).
Proof.
  intros. rewrite store_before_steps, firstn_app, Nat.sub_diag, firstn_all.
  cbn [firstn]. now rewrite app_nil_r.
Qed.

Lemma positions_in_range :
  forall (f : nat -> bool) (n i : nat), In i (filter f (seq 0 n)) -> (i < n)%nat.
Proof.
  intros f n i H. apply filter_In in H. destruct H as [H _].
  apply in_seq in H. lia.
Qed.

Lemma failing_positions_snoc :
  forall (env : Env) (st : Store) (l : list CreateCustomerInput)
         (x : CreateCustomerInput),
    failing_positions env st (l ++ [x])
    = (failing_positions env st l
       ++ (if fails_validation (fst (bulk_steps env 0 l (st, ([], [])))) x
           then [List.length l] else []))%list.
Proof.
  intros. exact (filter_positions_snoc env st l x (fun b => b)).
Qed.

Lemma passing_positions_snoc :
  forall (env : Env) (st : Store) (l : list CreateCustomerInput)
         (x : CreateCustomerInput),
    passing_positions env st (l ++ [x])
    = (passing_positions env st l
       ++ (if negb (fails_validation (fst (bulk_steps env 0 l (st, ([], [])))) x)
           then [List.length l] else []))%list.
Proof.
  intros. exact (filter_positions_snoc env st l x negb).
Qed.

(** What the loop has done when it ends: the store has grown by the
    customers created, the errors are those of the failing positions, in
    order, and the customers created are the inputs of the other positions,
    in order. *)
Lemma bulk_steps_invariant :
  forall (env : Env) (st : Store) (input : list CreateCustomerInput),
    let s := bulk_steps env 0 input (st, ([], [])) in
    customers (fst s) = (customers st ++ fst (snd s))%list
    /\ snd (snd s)
       = map (fun i => recorded_error (store_before env st input i)
                         (nth i input dummy_input) i)
             (failing_positions env st input)
    /\ map customer_data (fst (snd s))
       = map (fun i => input_data (nth i input dummy_input))
             (passing_positions env st input)
    /\ products (fst s) = products st
    /\ orders (fst s) = orders st
    /\ order_items (fst s) = order_items st.
Proof.
  intros env st input. induction input as [|x l IH] using rev_ind.
  - cbn. rewrite app_nil_r. repeat split.
  - cbv zeta in IH |- *.
    destruct IH as (Hc & He & Hd & Hp & Ho & Hi).
    rewrite bulk_steps_app. cbn [bulk_steps]. rewrite Nat.add_0_l.
    rewrite failing_positions_snoc, passing_positions_snoc.
    set (s := bulk_steps env 0 l (st, ([], []))) in *.
    assert (Hmap1 :
      map (fun i => recorded_error (store_before env st (l ++ [x]) i)
                      (nth i (l ++ [x]) dummy_input) i)
          (failing_positions env st l)
      = snd (snd s)).
    { rewrite He. apply map_ext_in. intros i Hin.
      apply positions_in_range in Hin.
      rewrite store_before_earlier, app_nth1 by assumption. reflexivity. }
    assert (Hmap2 :
      map (fun i => input_data (nth i (l ++ [x]) dummy_input))
          (passing_positions env st l)
      = map customer_data (fst (snd s))).
    { rewrite Hd. apply map_ext_in. intros i Hin.
      apply positions_in_range in Hin.
      rewrite app_nth1 by assumption. reflexivity. }
    rewrite !map_app, Hmap1, Hmap2.
    unfold bulk_step.
    destruct (fails_validation (fst s) x) eqn:Hf; cbn [negb fst snd map app].
    + rewrite store_before_last, nth_middle. fold s.
      rewrite app_nil_r. repeat split; assumption.
    + rewrite nth_middle, app_nil_r, map_app. cbn [map].
      unfold insert_customer. cbn [fst snd customers products orders order_items].
      rewrite Hc, <- app_assoc. repeat split; assumption.
Qed.

(** C7.  A bulk call over [N] inputs returns; its errors are those of the
    positions that fail validation when their turn comes, one for each and
    in order, each with the position as its [index]; the customers created
    are the inputs of all the other positions, in order, and they are what
    the store gains.  So with [k] failing positions there are [k] errors and
    [N - k] customers, and a failure stops nothing after it. *)
Theorem bulk_create_counts_and_indices :
  forall (env : Env) (st : Store) (input : list CreateCustomerInput),
    exists (st' : Store) (created : list Customer) (errors : list ErrorType),
      BulkCreateCustomers_mutate env input st
        = (st', Return (mkBulkCreateCustomers created errors))
      /\ customers st' = (customers st ++ created)%list
      /\ map error_index errors = map Z.of_nat (failing_positions env st input)
      /\ map customer_data created
         = map (fun i => input_data (nth i input dummy_input))
               (passing_positions env st input)
      /\ List.length errors = List.length (failing_positions env st input)
      /\ List.length created
         = (List.length input - List.length (failing_positions env st input))%nat.
Proof.
  intros env st input.
  destruct (bulk_steps_invariant env st input) as (Hc & He & Hd & _).
  cbv zeta in Hc, He, Hd.
  rewrite bulk_mutate_steps.
  set (s := bulk_steps env 0 input (st, ([], []))) in *.
  exists (fst s), (fst (snd s)), (snd (snd s)).
  split; [reflexivity|]. split; [exact Hc|].
  split; [rewrite He, map_map; reflexivity|].
  split; [exact Hd|].
  split; [rewrite He; apply length_map|].
  assert (Hlen : List.length (fst (snd s))
                 = List.length (passing_positions env st input)).
  { rewrite <- (length_map customer_data), Hd. apply length_map. }
  rewrite Hlen.
  pose proof (filter_length (fails_at env st input) (seq 0 (List.length input)))
    as Hsplit.
  rewrite length_seq in Hsplit.
  unfold failing_positions, passing_positions. lia.
Qed.

(** *** Uniqueness of emails *)

Lemma email_exists_In : forall (st : Store) (email : string),
  email_exists st email = true <-> In email (emails st).
Proof.
  intros st email. unfold email_exists, emails. rewrite existsb_exists, in_map_iff.
  split.
  - intros (c & Hin & Heq). apply String.eqb_eq in Heq. eauto.
  - intros (c & Heq & Hin). exists c. split; [assumption|].
    now apply String.eqb_eq.
Qed.

Lemma email_exists_grows :
  forall (st st' : Store) (more : list Customer) (email : string),
    customers st' = (customers st ++ more)%list ->
    email_exists st email = true -> email_exists st' email = true.
Proof.
  intros st st' more email Hc H. unfold email_exists in *.
  rewrite Hc, existsb_app, H. reflexivity.
Qed.

Lemma insert_customer_emails :
  forall (env : Env) (name email : string) (phone : option string) (st : Store),
    emails (fst (insert_customer env name email phone st))
    = (emails st ++ [email])%list.
Proof. intros. unfold emails, insert_customer. cbn. now rewrite map_app. Qed.

Lemma NoDup_snoc : forall (l : list string) (e : string),
  NoDup l -> ~ In e l -> NoDup (l ++ [e]).
Proof.
  intros l e Hl He. apply NoDup_app; [assumption|repeat constructor; intros []|].
  intros a Ha [Hae|[]]. subst. contradiction.
Qed.

(** Inserting a customer whose input passed validation keeps the emails
    unique and well formed. *)
Lemma insert_validated_customer :
  forall (env : Env) (x : CreateCustomerInput) (st : Store),
    fails_validation st x = false ->
    (NoDup (emails st) ->
     NoDup (emails (fst (insert_customer env (in_name x) (in_email x)
                           (in_phone x) st))))
    /\ (emails_well_formed st ->
        emails_well_formed (fst (insert_customer env (in_name x) (in_email x)
                                   (in_phone x) st))).
Proof.
  intros env x st Hf. rewrite fails_validation_spec in Hf.
  apply orb_false_elim in Hf. destruct Hf as [Hf _].
  apply orb_false_elim in Hf. destruct Hf as [Hfmt Hex].
  apply negb_false_iff in Hfmt.
  unfold emails_well_formed. rewrite insert_customer_emails. split.
  - intros Hnd. apply NoDup_snoc; [assumption|].
    intros Hin. apply email_exists_In in Hin. congruence.
  - intros Hwf. apply Forall_app. split; [assumption|].
    constructor; [assumption|constructor].
Qed.

Lemma bulk_steps_emails :
  forall (env : Env) (input : list CreateCustomerInput) (i : nat) (s : bulk_state),
    (NoDup (emails (fst s)) -> NoDup (emails (fst (bulk_steps env i input s))))
    /\ (emails_well_formed (fst s) ->
        emails_well_formed (fst (bulk_steps env i input s))).
Proof.
  induction input as [|x rest IH]; intros i s; cbn [bulk_steps].
  - auto.
  - destruct (IH (S i) (bulk_step env i x s)) as [IH1 IH2].
    unfold bulk_step in *.
    destruct (fails_validation (fst s) x) eqn:Hf; cbn [fst] in *.
    + auto.
    + destruct (insert_validated_customer env x (fst s) Hf) as [H1 H2]. auto.
Qed.

(** The three mutations on products and orders leave the customers alone. *)
Lemma create_product_customers :
  forall (env : Env) (input : CreateProductInput) (st : Store),
    customers (fst (CreateProduct_mutate env input st)) = customers st
    /\ orders (fst (CreateProduct_mutate env input st)) = orders st
    /\ order_items (fst (CreateProduct_mutate env input st)) = order_items st.
Proof.
  intros env input st.
  unfold CreateProduct_mutate, try_except, validate_price, validate_stock,
    full_clean, bind, raise, ret, lift, insert_product.
  destruct (in_price input <=? 0); [repeat split|].
  destruct (in_stock input) as [s|]; [|repeat split].
  destruct (s <? 0); repeat split.
Qed.

Lemma create_order_effect :
  forall (env : Env) (input : CreateOrderInput) (st : Store),
    CreateOrder_mutate env input st
      = (st, snd (CreateOrder_mutate env input st))
    \/ exists (customer : Customer) (total : Decimal),
         get_customer st (in_customer_id input) = Some customer
         /\ fst (CreateOrder_mutate env input st)
            = fst (insert_order env customer (in_order_date input) total st).
Proof.
  intros env input st.
  unfold CreateOrder_mutate, try_except, bind, get.
  destruct (get_customer st (in_customer_id input)) as [customer|];
    [|left; reflexivity].
  destruct (in_product_ids input) as [|i ids]; [left; reflexivity|].
  destruct (resolve_product_ids st (i :: ids) [] []) as [ps bad].
  destruct bad; [|left; reflexivity].
  right. exists customer, (sum_prices ps). split; reflexivity.
Qed.

Lemma replenish_all_returns : forall (env : Env) (l : list Product) (st : Store),
  snd (replenish_all env l st) = Return tt.
Proof.
  induction l as [|p l IH]; intros st; cbn.
  - reflexivity.
  - unfold bind, modify. apply IH.
Qed.

Lemma update_low_stock_effect :
  forall (env : Env) (st : Store),
    UpdateLowStockProducts_mutate env st
    = (fst (replenish_all env (filter low_stock (products st)) st),
       Return (mkUpdateLowStockProducts 0
                 ("An error occurred: "
                  ++ "'updated_product_list' is an invalid keyword argument for UpdateLowStockProducts")
                 false)).
Proof.
  intros env st.
  unfold UpdateLowStockProducts_mutate, try_except, bind, get.
  pose proof (replenish_all_returns env (filter low_stock (products st)) st) as Hr.
  destruct (replenish_all env (filter low_stock (products st)) st)
    as [st' [[]|e]]; cbn [snd] in Hr; [reflexivity|discriminate].
Qed.

Lemma emails_of_customers : forall st st' : Store,
  customers st' = customers st -> emails st' = emails st.
Proof. intros st st' H. unfold emails. now rewrite H. Qed.

Lemma create_order_customers :
  forall (env : Env) (input : CreateOrderInput) (st : Store),
    customers (fst (CreateOrder_mutate env input st)) = customers st
    /\ order_items (fst (CreateOrder_mutate env input st)) = order_items st.
Proof.
  intros env input st.
  destruct (create_order_effect env input st) as [H|(c & total & _ & H)];
    rewrite H; split; reflexivity.
Qed.

Lemma update_low_stock_customers :
  forall (env : Env) (st : Store),
    customers (fst (UpdateLowStockProducts_mutate env st)) = customers st
    /\ orders (fst (UpdateLowStockProducts_mutate env st)) = orders st
    /\ order_items (fst (UpdateLowStockProducts_mutate env st)) = order_items st.
Proof.
  intros env st. rewrite update_low_stock_effect. cbn [fst].
  destruct (replenish_all_order_items env (filter low_stock (products st)) st)
    as (H1 & H2 & H3).
  auto.
Qed.

(** Every mutation keeps stored emails unique and well formed. *)
Lemma run_preserves_emails :
  forall (env : Env) (op : operation) (st : Store),
    (NoDup (emails st) -> NoDup (emails (run env op st)))
    /\ (emails_well_formed st -> emails_well_formed (run env op st)).
Proof.
  intros env op st. destruct op as [input|input|input|input|]; cbn [run].
  - rewrite create_customer_spec.
    destruct (email_format_ok (in_email input)) eqn:Hfmt; cbn [negb fst]; [|auto].
    destruct (email_exists st (in_email input)) eqn:Hex; cbn [fst]; [auto|].
    destruct (phone_rejected (in_phone input)) eqn:Hph; cbn [fst]; [auto|].
    apply insert_validated_customer.
    rewrite fails_validation_spec, Hfmt, Hex, Hph. reflexivity.
  - rewrite bulk_mutate_steps. cbn [fst].
    apply (bulk_steps_emails env input 0 (st, ([], []))).
  - destruct (create_product_customers env input st) as (H & _).
    unfold emails_well_formed. rewrite (emails_of_customers _ _ H). auto.
  - destruct (create_order_customers env input st) as (H & _).
    unfold emails_well_formed. rewrite (emails_of_customers _ _ H). auto.
  - destruct (update_low_stock_customers env st) as (H & _).
    unfold emails_well_formed. rewrite (emails_of_customers _ _ H). auto.
Qed.

Lemma store_before_customers :
  forall (env : Env) (st : Store) (input : list CreateCustomerInput) (i : nat),
    exists more : list Customer,
      customers (store_before env st input i) = (customers st ++ more)%list.
Proof.
  intros env st input i. rewrite store_before_steps.
  destruct (bulk_steps_invariant env st (firstn i input)) as (Hc & _).
  eexists. exact Hc.
Qed.

(** An input whose email the store already holds fails validation at its
    position of a bulk call. *)
Lemma duplicate_fails_at :
  forall (env : Env) (st : Store) (input : list CreateCustomerInput) (i : nat),
    email_exists st (in_email (nth i input dummy_input)) = true ->
    fails_at env st input i = true.
Proof.
  intros env st input i Hex. unfold fails_at.
  destruct (store_before_customers env st input i) as (more & Hc).
  rewrite fails_validation_spec, (email_exists_grows _ _ _ _ Hc Hex).
  now rewrite orb_true_r.
Qed.

Lemma created_emails :
  forall (created : list Customer) (input : list CreateCustomerInput)
         (positions : list nat),
    map customer_data created
      = map (fun i => input_data (nth i input dummy_input)) positions ->
    map customer_email created
      = map (fun i => in_email (nth i input dummy_input)) positions.
Proof.
  intros created input positions H.
  apply (f_equal (map (fun d : string * string * option string => snd (fst d)))) in H.
  rewrite !map_map in H. exact H.
Qed.

(** C8.  On a store whose emails are well formed and unique:
    [createCustomer] answers an input whose email the store holds with the
    duplicate-email message and writes nothing; a bulk call records for such
    an input, at its position, the error [Email '...' already exists] and
    creates no customer with that email; and the store every mutation leaves
    behind has unique, well-formed emails again, whatever the inputs, two
    equal emails in one batch included. *)
Theorem duplicate_email_rejected_and_uniqueness_kept :
  forall (env : Env) (st : Store),
    emails_well_formed st ->
    NoDup (emails st) ->
    (forall input : CreateCustomerInput,
        email_exists st (in_email input) = true ->
        CreateCustomer_mutate env input st
        = (st, Return (mkCreateCustomer None msg_duplicate_email false)))
    /\ (forall (input : list CreateCustomerInput) (i : nat) (x : CreateCustomerInput),
          nth_error input i = Some x ->
          email_exists st (in_email x) = true ->
          exists (st' : Store) (created : list Customer) (errors : list ErrorType),
            BulkCreateCustomers_mutate env input st
              = (st', Return (mkBulkCreateCustomers created errors))
            /\ In (mkErrorType "customer_data" (msg_bulk_duplicate (in_email x))
                               (Z.of_nat i)) errors
            /\ ~ In (in_email x) (map customer_email created))
    /\ (forall op : operation,
          NoDup (emails (run env op st)) /\ emails_well_formed (run env op st)).
Proof.
  intros env st Hwf Hnd. split; [|split].
  - intros input Hex. rewrite create_customer_spec, Hex.
    destruct (email_format_ok (in_email input)); reflexivity.
  - intros input i x Hnth Hex.
    assert (Hi : (i < List.length input)%nat).
    { apply nth_error_Some. congruence. }
    assert (Hx : nth i input dummy_input = x) by now apply nth_error_nth.
    destruct (bulk_steps_invariant env st input) as (Hc & He & Hd & _).
    cbv zeta in Hc, He, Hd. rewrite bulk_mutate_steps.
    set (s := bulk_steps env 0 input (st, ([], []))) in *.
    exists (fst s), (fst (snd s)), (snd (snd s)).
    split; [reflexivity|]. split.
    + rewrite He. apply in_map_iff. exists i. split.
      * rewrite Hx. unfold recorded_error.
        assert (Hfmt : email_format_ok (in_email x) = true).
        { unfold emails_well_formed in Hwf. rewrite Forall_forall in Hwf.
          apply Hwf. now apply email_exists_In. }
        destruct (store_before_customers env st input i) as (more & Hmore).
        rewrite Hfmt, (email_exists_grows _ _ _ _ Hmore Hex). reflexivity.
      * apply filter_In. split; [apply in_seq; lia|].
        apply duplicate_fails_at. now rewrite Hx.
    + rewrite (created_emails _ _ _ Hd). intros Hin.
      apply in_map_iff in Hin. destruct Hin as (j & Hj & Hpass).
      apply filter_In in Hpass. destruct Hpass as [_ Hpass].
      rewrite duplicate_fails_at in Hpass; [discriminate|].
      now rewrite Hj.
  - intros op. destruct (run_preserves_emails env op st). auto.
Qed.

Lemma duplicate_email_rejected_and_uniqueness_kept_witness :
  (CreateCustomer_mutate sample_env
     (mkCreateCustomerInput "Ann" "ann@example.com" None) sample_store
   = (sample_store, Return (mkCreateCustomer None msg_duplicate_email false)))
  /\ NoDup (emails (run sample_env
                      (OpBulkCreateCustomers
                         [mkCreateCustomerInput "Bob" "bob@example.com" None;
                          mkCreateCustomerInput "Rob" "bob@example.com" None])
                      sample_store)).
Proof.
  assert (Hwf : emails_well_formed sample_store).
  { repeat constructor. }
  assert (Hnd : NoDup (emails sample_store)).
  { repeat constructor. intros []. }
  destruct (duplicate_email_rejected_and_uniqueness_kept sample_env sample_store
              Hwf Hnd) as (H1 & _ & H3).
  split.
  - apply H1. reflexivity.
  - apply H3.
Defined.

(** *** [UpdateLowStockProducts] *)

Section ByPrimaryKey.
Variable env : Env.

Let same_id (q p : Product) : bool := product_id p =? product_id q.

Lemma find_by_id_absent : forall (q : Product) (l : list Product),
  ~ In (product_id q) (map product_id l) -> find (same_id q) l = None.
Proof.
  intros q l. induction l as [|a l IH]; intros Hn; cbn.
  - reflexivity.
  - unfold same_id at 1. destruct (Z.eqb_spec (product_id a) (product_id q)) as [E|E].
    + exfalso. apply Hn. left. exact E.
    + apply IH. intros Hin. apply Hn. right. exact Hin.
Qed.

Lemma NoDup_ids_filter : forall (f : Product -> bool) (l : list Product),
  NoDup (map product_id l) -> NoDup (map product_id (filter f l)).
Proof.
  intros f l. induction l as [|a l IH]; intros Hnd; cbn.
  - constructor.
  - inversion Hnd as [|x xs Hnotin Hnd' Heq]; subst.
    destruct (f a); cbn; [constructor|]; auto.
    intros Hin. apply Hnotin. apply in_map_iff in Hin.
    destruct Hin as (p & Hp & Hin). apply filter_In in Hin.
    apply in_map_iff. exists p. tauto.
Qed.

Lemma find_by_id_in_filter :
  forall (f : Product -> bool) (l : list Product) (q : Product),
    NoDup (map product_id l) -> In q l ->
    find (same_id q) (filter f l) = if f q then Some q else None.
Proof.
  intros f l q. induction l as [|a l IH]; intros Hnd Hin; [destruct Hin|].
  inversion Hnd as [|x xs Hnotin Hnd' Heq]; subst.
  assert (Hfilter : ~ In (product_id a) (map product_id (filter f l))).
  { intros H. apply Hnotin. apply in_map_iff in H.
    destruct H as (p & Hp & H). apply filter_In in H.
    apply in_map_iff. exists p. tauto. }
  destruct Hin as [->|Hin]; cbn [filter].
  - destruct (f q); cbn [find].
    + unfold same_id at 1. now rewrite Z.eqb_refl.
    + now apply find_by_id_absent.
  - assert (Hne : product_id a <> product_id q).
    { intros E. apply Hnotin. rewrite E. now apply in_map. }
    destruct (f a); cbn [find]; [|now apply IH].
    unfold same_id at 1. destruct (Z.eqb_spec (product_id a) (product_id q));
      [contradiction|now apply IH].
Qed.

(** The loop of saves, on products with distinct primary keys: a row is
    overwritten when its key is the key of a selected product. *)
Lemma replenish_all_products : forall (l : list Product) (st : Store),
  NoDup (map product_id l) ->
  products (fst (replenish_all env l st))
  = map (fun q => match find (same_id q) l with
                  | Some p => replenished env p
                  | None => q
                  end)
        (products st).
Proof.
  induction l as [|p l IH]; intros st Hnd.
  - cbn. symmetry. apply map_id.
  - inversion Hnd as [|x xs Hnotin Hnd' Heq]; subst.
    cbn [replenish_all]. unfold bind, modify. rewrite (IH _ Hnd').
    unfold update_product. cbn [products]. rewrite map_map.
    apply map_ext. intros q. cbn [find replenish product_id].
    replace (same_id q p) with (product_id q =? product_id p)
      by (unfold same_id; apply Z.eqb_sym).
    destruct (Z.eqb_spec (product_id q) (product_id p)) as [E|E].
    + rewrite find_by_id_absent; [reflexivity|]. cbn [product_id]. exact Hnotin.
    + reflexivity.
Qed.

End ByPrimaryKey.

(** C5.  On a store whose products have distinct primary keys, the
    mutation raises the stock of each product below 10 by exactly 10 and
    touches no other product.  The answer, however, is not the success
    object: its constructor is given the keyword [updated_product_list],
    which the class does not declare, the [TypeError] lands in the handler,
    and the caller is told [success=false] and [updated_count=0] after the
    stock has been written. *)
Theorem update_low_stock_writes_then_reports_failure :
  forall (env : Env) (st : Store),
    product_ids_unique st ->
    exists (st' : Store) (message : string),
      UpdateLowStockProducts_mutate env st
        = (st', Return (mkUpdateLowStockProducts 0 message false))
      /\ products st'
         = map (fun p => if low_stock p then replenished env p else p) (products st)
      /\ map product_stock (products st')
         = map (fun p => if product_stock p <? 10
                         then product_stock p + 10 else product_stock p)
               (products st).
Proof.
  intros env st Hnd. rewrite update_low_stock_effect.
  eexists; eexists. split; [reflexivity|]. cbn [fst].
  assert (Hp : products (fst (replenish_all env (filter low_stock (products st)) st))
               = map (fun p => if low_stock p then replenished env p else p)
                     (products st)).
  { rewrite replenish_all_products by (apply NoDup_ids_filter; exact Hnd).
    apply map_ext_in. intros q Hq.
    rewrite (find_by_id_in_filter low_stock (products st) q Hnd Hq).
    destruct (low_stock q); reflexivity. }
  split; [exact Hp|].
  rewrite Hp, map_map. apply map_ext. intros p. unfold low_stock.
  destruct (product_stock p <? 10); reflexivity.
Qed.

(** One product at stock 3 and one at stock 30: the stocks become 13 and
    30, and the answer counts no update and reports failure. *)
Lemma update_low_stock_writes_then_reports_failure_witness :
  exists (st' : Store) (message : string),
    UpdateLowStockProducts_mutate sample_env sample_store
      = (st', Return (mkUpdateLowStockProducts 0 message false))
    /\ products st'
       = map (fun p => if low_stock p then replenished sample_env p else p)
             (products sample_store)
    /\ map product_stock (products st') = [13; 30].
Proof.
  apply (update_low_stock_writes_then_reports_failure sample_env sample_store).
  unfold product_ids_unique. cbn.
  constructor; [intros [H|[]]; discriminate H|].
  constructor; [intros []|constructor].
Defined.

(** *** Ordering *)







(** *** [customerOrders] *)

Lemma order_by_order_date : forall rows : list Order,
  order_by order_columns nothing_declared "-order_date" rows
  = Return (sort_rows (fun o => KInt (order_date o)) true rows).
Proof. reflexivity. Qed.

Lemma resolve_customer_orders_spec :
  forall (st : Store) (cid : ID) (status : option string),
    resolve_customer_orders st cid status
    = Return
        (sort_rows (fun o => KInt (order_date o)) true
           (let queryset := filter (fun o => order_customer_id o =? cid) (orders st) in
            if Py.truthy_opt status
            then filter (fun o => String.eqb (order_status o)
                                    (match status with Some s => s | None => "" end))
                        queryset
            else queryset)).
Proof.
  intros. unfold resolve_customer_orders. rewrite order_by_order_date. reflexivity.
Qed.

Lemma filter_nothing : forall (A : Type) (f : A -> bool) (l : list A),
  (forall a, In a l -> f a = false) -> filter f l = [].
Proof.
  intros A f l. induction l as [|a l IH]; intros H; cbn; [reflexivity|].
  rewrite (H a) by (now left). apply IH. intros b Hb. apply H. now right.
Qed.




(** *** What holds in every reachable store *)

Lemma get_customer_grows :
  forall (st st' : Store) (more : list Customer) (i : ID),
    customers st' = (customers st ++ more)%list ->
    get_customer st i <> None -> get_customer st' i <> None.
Proof.
  intros st st' more i Hc. unfold get_customer. rewrite Hc. clear Hc.
  induction (customers st) as [|c l IH]; cbn; [congruence|].
  destruct (customer_id c =? i); [congruence|exact IH].
Qed.

Lemma orders_have_customers_grows :
  forall (st st' : Store) (more : list Customer),
    customers st' = (customers st ++ more)%list ->
    orders st' = orders st ->
    orders_have_customers st -> orders_have_customers st'.
Proof.
  intros st st' more Hc Ho. unfold orders_have_customers. rewrite Ho.
  apply Forall_impl. intros o. now apply get_customer_grows with (more := more).
Qed.

Lemma run_customers_grow :
  forall (env : Env) (op : operation) (st : Store),
    exists more : list Customer,
      customers (run env op st) = (customers st ++ more)%list.
Proof.
  intros env op st. destruct op as [input|input|input|input|]; cbn [run].
  - rewrite create_customer_spec.
    destruct (negb (email_format_ok (in_email input)));
      [exists []; cbn; now rewrite app_nil_r|].
    destruct (email_exists st (in_email input));
      [exists []; cbn; now rewrite app_nil_r|].
    destruct (phone_rejected (in_phone input));
      [exists []; cbn; now rewrite app_nil_r|].
    eexists. reflexivity.
  - rewrite bulk_mutate_steps. cbn [fst].
    destruct (bulk_steps_invariant env st input) as (Hc & _). eexists. exact Hc.
  - destruct (create_product_customers env input st) as (H & _).
    exists []. now rewrite H, app_nil_r.
  - destruct (create_order_customers env input st) as (H & _).
    exists []. now rewrite H, app_nil_r.
  - destruct (update_low_stock_customers env st) as (H & _).
    exists []. now rewrite H, app_nil_r.
Qed.

Lemma run_preserves_orders_have_customers :
  forall (env : Env) (op : operation) (st : Store),
    orders_have_customers st -> orders_have_customers (run env op st).
Proof.
  intros env op st Hfk.
  destruct (run_customers_grow env op st) as (more & Hc).
  destruct op as [input|input|input|input|]; cbn [run] in *.
  - apply (orders_have_customers_grows st _ more Hc); [|exact Hfk].
    rewrite create_customer_spec.
    destruct (negb (email_format_ok (in_email input))); [reflexivity|].
    destruct (email_exists st (in_email input)); [reflexivity|].
    destruct (phone_rejected (in_phone input)); reflexivity.
  - apply (orders_have_customers_grows st _ more Hc); [|exact Hfk].
    rewrite bulk_mutate_steps. cbn [fst].
    now destruct (bulk_steps_invariant env st input) as (_ & _ & _ & _ & Ho & _).
  - apply (orders_have_customers_grows st _ more Hc); [|exact Hfk].
    now destruct (create_product_customers env input st) as (_ & Ho & _).
  - destruct (create_order_effect env input st) as [H|(c & total & Hget & H)].
    + now rewrite H.
    + rewrite H. unfold get_customer in Hget.
      destruct (find_some _ _ Hget) as [Hin _].
      unfold orders_have_customers, insert_order. cbn [fst orders].
      apply Forall_app. split; [exact Hfk|].
      constructor; [|constructor]. unfold get_customer.
      cbn [order_customer_id customers].
      intros Hnone. pose proof (find_none _ _ Hnone c Hin) as Hc'.
      cbn beta in Hc'. rewrite Z.eqb_refl in Hc'. discriminate.
  - apply (orders_have_customers_grows st _ more Hc); [|exact Hfk].
    now destruct (update_low_stock_customers env st) as (_ & Ho & _).
Qed.

(** Stored emails are unique and well formed, every order belongs to an
    existing customer, and the order-item relation is empty: no mutation
    ever writes to it. *)
Lemma reachable_invariants : forall st : Store,
  reachable st ->
  NoDup (emails st) /\ emails_well_formed st /\ orders_have_customers st
  /\ order_items st = [].
Proof.
  induction 1 as [|env op st _ (Hnd & Hwf & Hfk & Hitems)].
  - repeat split; constructor.
  - destruct (run_preserves_emails env op st) as [H1 H2].
    repeat split; auto using run_preserves_orders_have_customers.
    rewrite <- Hitems.
    destruct op as [input|input|input|input|]; cbn [run].
    + rewrite create_customer_spec.
      destruct (negb (email_format_ok (in_email input))); [reflexivity|].
      destruct (email_exists st (in_email input)); [reflexivity|].
      destruct (phone_rejected (in_phone input)); reflexivity.
    + rewrite bulk_mutate_steps. cbn [fst].
      now destruct (bulk_steps_invariant env st input) as (_ & _ & _ & _ & _ & Hi).
    + now destruct (create_product_customers env input st) as (_ & _ & Hi).
    + now destruct (create_order_customers env input st) as (_ & Hi).
    + now destruct (update_low_stock_customers env st) as (_ & _ & Hi).
Qed.

Lemma reachable_replay : forall (env : Env) (ops : list operation) (st : Store),
  reachable st -> reachable (replay env ops st).
Proof.
  intros env ops. unfold replay.
  induction ops as [|op ops IH]; intros st H; cbn [fold_left].
  - exact H.
  - apply IH. now constructor.
Qed.

(** C3.  [CreateOrder.mutate] saves the order and nothing else, and no
    other mutation writes the order-item relation.  In every reachable store
    every order is without items; and such stores have orders: after one
    customer, two products and a successful [createOrder] naming both
    products, the store holds the order, with the total of both prices, and
    the order has no item and resolves to no product. *)
Theorem reachable_orders_have_no_items :
  (forall (st : Store) (o : Order),
      reachable st -> In o (orders st) ->
      items_of st o = [] /\ resolve_products_of_order st o = [])
  /\ reachable (replay sample_env sample_history empty_store)
  /\ exists order : Order,
       orders (replay sample_env sample_history empty_store) = [order]
       /\ order_total_amount order = 2550
       /\ items_of (replay sample_env sample_history empty_store) order = []
       /\ resolve_products_of_order
            (replay sample_env sample_history empty_store) order = [].
Proof.
  split; [|split].
  - intros st o Hr _. apply reachable_invariants in Hr.
    destruct Hr as (_ & _ & _ & Hitems).
    unfold resolve_products_of_order, items_of. rewrite Hitems. split; reflexivity.
  - apply reachable_replay. constructor.
  - eexists. repeat split.
Qed.

(* ------------------------------------------------------------------ *)
(** ** Further properties of the mutations *)

(** A valid input creates exactly one customer: the call succeeds, the
    store gains one row, last, holding the input as given under the next
    primary key, and nothing else of the store changes. *)
Theorem create_customer_valid_persists_one :
  forall (env : Env) (input : CreateCustomerInput) (st : Store),
    fails_validation st input = false ->
    exists (st' : Store) (customer : Customer),
      CreateCustomer_mutate env input st
        = (st', Return (mkCreateCustomer (Some customer)
                          "Customer created successfully!" true))
      /\ customers st' = (customers st ++ [customer])%list
      /\ customer_data customer = input_data input
      /\ customer_id customer = next_customer_id st
      /\ next_customer_id st' = next_customer_id st + 1
      /\ products st' = products st /\ orders st' = orders st
      /\ order_items st' = order_items st.
Proof.
  intros env input st Hf. rewrite fails_validation_spec in Hf.
  apply orb_false_elim in Hf. destruct Hf as [Hf Hph].
  apply orb_false_elim in Hf. destruct Hf as [Hfmt Hex].
  rewrite create_customer_spec, Hfmt, Hex, Hph.
  eexists; eexists. split; [reflexivity|]. repeat split.
Qed.

Lemma create_customer_valid_persists_one_witness :
  exists (st' : Store) (customer : Customer),
    CreateCustomer_mutate sample_env
      (mkCreateCustomerInput "Bob" "bob@example.com" (Some "+1234567890"))
      sample_store
      = (st', Return (mkCreateCustomer (Some customer)
                        "Customer created successfully!" true))
    /\ customers st' = (customers sample_store ++ [customer])%list
    /\ customer_data customer = ("Bob", "bob@example.com", Some "+1234567890")
    /\ customer_id customer = 2
    /\ next_customer_id st' = 3
    /\ products st' = products sample_store /\ orders st' = orders sample_store
    /\ order_items st' = order_items sample_store.
Proof.
  apply (create_customer_valid_persists_one sample_env
           (mkCreateCustomerInput "Bob" "bob@example.com" (Some "+1234567890"))
           sample_store).
  reflexivity.
Defined.

(** Once a customer is created, its email is taken: any later
    [createCustomer] with that email, whatever the name, the phone and the
    time, is answered with the duplicate-email message and changes
    nothing. *)
Theorem create_customer_then_same_email_rejected :
  forall (env env' : Env) (input again : CreateCustomerInput) (st : Store),
    fails_validation st input = false ->
    in_email again = in_email input ->
    let st' := fst (CreateCustomer_mutate env input st) in
    email_exists st' (in_email input) = true
    /\ CreateCustomer_mutate env' again st'
       = (st', Return (mkCreateCustomer None msg_duplicate_email false)).
Proof.
  intros env env' input again st Hf Hsame st'.
  assert (Hex : email_exists st' (in_email input) = true).
  { subst st'. rewrite fails_validation_spec in Hf.
    apply orb_false_elim in Hf. destruct Hf as [Hf Hph].
    apply orb_false_elim in Hf. destruct Hf as [Hfmt Hex].
    rewrite create_customer_spec, Hfmt, Hex, Hph. cbn [fst].
    apply email_exists_In. rewrite insert_customer_emails.
    apply in_or_app. right. now left. }
  split; [exact Hex|].
  rewrite create_customer_spec, Hsame, Hex.
  destruct (email_format_ok (in_email input)); reflexivity.
Qed.

Lemma create_customer_then_same_email_rejected_witness :
  let st' := fst (CreateCustomer_mutate sample_env
                    (mkCreateCustomerInput "Bob" "bob@example.com" None)
                    sample_store) in
  email_exists st' "bob@example.com" = true
  /\ CreateCustomer_mutate sample_env
       (mkCreateCustomerInput "Robert" "bob@example.com" None) st'
     = (st', Return (mkCreateCustomer None msg_duplicate_email false)).
Proof.
  apply (create_customer_then_same_email_rejected sample_env sample_env
           (mkCreateCustomerInput "Bob" "bob@example.com" None)
           (mkCreateCustomerInput "Robert" "bob@example.com" None)
           sample_store); reflexivity.
Defined.



Lemma resolve_product_ids_spec :
  forall (st : Store) (ids : list ID) (acc : list Product) (invalid : list string),
    resolve_product_ids st ids acc invalid
    = ((acc ++ resolved_products st ids)%list,
       (invalid ++ map Py.str_Z (unresolved_ids st ids))%list).
Proof.
  intros st ids. induction ids as [|i ids IH]; intros acc invalid;
    cbn [resolve_product_ids resolved_products unresolved_ids flat_map filter].
  - cbn. now rewrite !app_nil_r.
  - fold (resolved_products st ids). fold (unresolved_ids st ids).
    destruct (get_product st i) as [p|]; rewrite IH; cbn [map app];
      now rewrite <- !app_assoc.
Qed.

Lemma create_order_spec :
  forall (env : Env) (input : CreateOrderInput) (st : Store),
    CreateOrder_mutate env input st
    = match get_customer st (in_customer_id input) with
      | None => (st, Return (mkCreateOrder None msg_customer_not_found false))
      | Some customer =>
          match in_product_ids input with
          | [] => (st, Return (mkCreateOrder None msg_no_products false))
          | _ :: _ =>
              match unresolved_ids st (in_product_ids input) with
              | _ :: _ =>
                  (st, Return (mkCreateOrder None
                                 ("Invalid product IDs: "
                                  ++ Py.join ", "
                                       (map Py.str_Z
                                          (unresolved_ids st (in_product_ids input))))
                                 false))
              | [] =>
                  (fst (insert_order env customer (in_order_date input)
                          (sum_prices (resolved_products st (in_product_ids input)))
                          st),
                   Return (mkCreateOrder
                             (Some (snd (insert_order env customer
                                           (in_order_date input)
                                           (sum_prices
                                              (resolved_products st
                                                 (in_product_ids input)))
                                           st)))
                             "Order created successfully!" true))
              end
          end
      end.
Proof.
  intros env input st.
  destruct (get_customer st (in_customer_id input)) as [customer|] eqn:Hc.
  - destruct (in_product_ids input) as [|i ids] eqn:Hids.
    + unfold CreateOrder_mutate, try_except, bind, get. rewrite Hc, Hids.
      now rewrite construct_CreateOrder.
    + destruct (unresolved_ids st (i :: ids)) as [|b bad] eqn:Hbad.
      * unfold CreateOrder_mutate, try_except, bind, get. rewrite Hc, Hids.
        rewrite resolve_product_ids_spec, Hbad. cbn [app map].
        unfold lift, insert_order. cbv beta iota zeta.
        now rewrite construct_CreateOrder.
      * unfold CreateOrder_mutate, try_except, bind, get. rewrite Hc, Hids.
        rewrite resolve_product_ids_spec, Hbad. cbn [app map].
        now rewrite construct_CreateOrder.
  - unfold CreateOrder_mutate, try_except, bind, get. rewrite Hc.
    now rewrite construct_CreateOrder.
Qed.

Lemma resolve_delivered_ids_on_keys :
  forall (st : Store) (ids : list ID) (acc : list Product) (invalid : list string),
    resolve_delivered_ids st (map plain_id ids) acc invalid
    = Return (resolve_product_ids st ids acc invalid).
Proof.
  intros st ids. induction ids as [|i ids IH]; intros acc invalid;
    cbn [map resolve_delivered_ids resolve_product_ids plain_id id_key id_text].
  - reflexivity.
  - destruct (get_product st i); apply IH.
Qed.

(** On ids written in plain decimal, the mutation on the ids as delivered
    is the mutation on the keys they denote. *)
Lemma create_order_on_keys :
  forall (env : Env) (st : Store) (key : ID) (ids : list ID)
         (date : option DateTime),
    create_order env (plain_id key) (map plain_id ids) date st
    = CreateOrder_mutate env (mkCreateOrderInput key ids date) st.
Proof.
  intros env st key ids date.
  unfold create_order, CreateOrder_mutate, try_except, bind, get.
  cbn [plain_id id_key in_customer_id in_product_ids in_order_date].
  destruct (get_customer st key) as [customer|]; [|reflexivity].
  destruct ids as [|i ids]; [reflexivity|].
  change (plain_id i :: map plain_id ids) with (map plain_id (i :: ids)).
  rewrite resolve_delivered_ids_on_keys.
  destruct (resolve_product_ids st (i :: ids) [] []) as [ps bad].
  destruct bad; reflexivity.
Qed.

Lemma resolve_delivered_ids_spec :
  forall (st : Store) (ids : list GraphQLID),
    Forall (fun i => id_key i <> None) ids ->
    forall (acc : list Product) (invalid : list string),
    exists found : list Product,
      resolve_delivered_ids st ids acc invalid
      = Return ((acc ++ found)%list,
                (invalid ++ map id_text (unresolved_delivered st ids))%list).
Proof.
  intros st ids Hall. induction Hall as [|i ids Hi _ IH]; intros acc invalid;
    cbn [resolve_delivered_ids unresolved_delivered filter].
  - exists []. cbn. now rewrite !app_nil_r.
  - fold (unresolved_delivered st ids).
    destruct (id_key i) as [key|]; [|now elim Hi].
    destruct (get_product st key) as [p|].
    + destruct (IH (acc ++ [p])%list invalid) as (found & ->).
      exists (p :: found). now rewrite <- app_assoc.
    + destruct (IH acc (invalid ++ [id_text i])%list) as (found & ->).
      exists found. cbn [map]. now rewrite <- app_assoc.
Qed.

Lemma resolve_delivered_ids_raises :
  forall (st : Store) (ids : list GraphQLID),
    Exists (fun i => id_key i = None) ids ->
    forall (acc : list Product) (invalid : list string),
    exists message : string,
      resolve_delivered_ids st ids acc invalid = Raise (ValueError message).
Proof.
  intros st ids Hex. induction Hex as [i ids Hi|i ids _ IH]; intros acc invalid;
    cbn [resolve_delivered_ids].
  - rewrite Hi. eexists. reflexivity.
  - destruct (id_key i) as [key|]; [|eexists; reflexivity].
    destruct (get_product st key); apply IH.
Qed.

(** [createOrder] on the ids as GraphQL delivers them, for a customer id
    that resolves.  When every product id denotes a key and at least one of
    those keys belongs to no product, the call fails, the store is unchanged,
    and the message lists exactly the ids that resolve to no product, each as
    the client wrote it, in the order given and as often as given, separated
    by a comma and a space.  When some product id denotes no key, the call
    fails with the message of the last handler instead, and the store is
    unchanged as well. *)
Theorem create_order_lists_unresolved_ids :
  forall (env : Env) (st : Store) (customer_id : GraphQLID)
         (product_ids : list GraphQLID) (date : option DateTime)
         (key : ID) (customer : Customer),
    id_key customer_id = Some key ->
    get_customer st key = Some customer ->
    (Forall (fun i => id_key i <> None) product_ids ->
     unresolved_delivered st product_ids <> [] ->
     create_order env customer_id product_ids date st
     = (st, Return (mkCreateOrder None
                      ("Invalid product IDs: "
                       ++ Py.join ", "
                            (map id_text (unresolved_delivered st product_ids)))
                      false)))
    /\ (Exists (fun i => id_key i = None) product_ids ->
        exists message : string,
          create_order env customer_id product_ids date st
          = (st, Return (mkCreateOrder None ("An error occurred: " ++ message)
                           false))).
Proof.
  intros env st customer_id product_ids date key customer Hkey Hc. split.
  - intros Hall Hbad.
    unfold create_order, try_except, bind, get. rewrite Hkey, Hc.
    destruct product_ids as [|i ids]; [now elim Hbad|].
    destruct (resolve_delivered_ids_spec st (i :: ids) Hall [] [])
      as (found & ->). cbn [app].
    destruct (unresolved_delivered st (i :: ids)) as [|b bad]; [now elim Hbad|].
    cbn [map]. rewrite construct_CreateOrder. reflexivity.
  - intros Hex.
    unfold create_order, try_except, bind, get. rewrite Hkey, Hc.
    destruct product_ids as [|i ids]; [inversion Hex|].
    destruct (resolve_delivered_ids_raises st (i :: ids) Hex [] [])
      as (message & ->).
    unfold raise. rewrite construct_CreateOrder.
    exists message. reflexivity.
Qed.

Lemma create_order_lists_unresolved_ids_witness :
  create_order sample_env (mkGraphQLID "1" (Some 1))
    [mkGraphQLID "007" (Some 7); mkGraphQLID "1" (Some 1);
     mkGraphQLID "12" (Some 12); mkGraphQLID "7" (Some 7)]
    None sample_store
  = (sample_store,
     Return (mkCreateOrder None "Invalid product IDs: 007, 12, 7" false))
  /\ exists message : string,
       create_order sample_env (mkGraphQLID "1" (Some 1))
         [mkGraphQLID "1" (Some 1); mkGraphQLID "abc" None] None sample_store
       = (sample_store,
          Return (mkCreateOrder None ("An error occurred: " ++ message) false)).
Proof.
  split.
  - destruct (create_order_lists_unresolved_ids sample_env sample_store
                (mkGraphQLID "1" (Some 1))
                [mkGraphQLID "007" (Some 7); mkGraphQLID "1" (Some 1);
                 mkGraphQLID "12" (Some 12); mkGraphQLID "7" (Some 7)]
                None 1 sample_customer eq_refl eq_refl) as [H _].
    apply H.
    + repeat constructor; discriminate.
    + discriminate.
  - destruct (create_order_lists_unresolved_ids sample_env sample_store
                (mkGraphQLID "1" (Some 1))
                [mkGraphQLID "1" (Some 1); mkGraphQLID "abc" None]
                None 1 sample_customer eq_refl eq_refl) as [_ H].
    apply H. right. left. reflexivity.
Defined.

(** [createOrder] succeeds exactly when the customer resolves, the list
    of product ids is not empty and every id in it resolves.  Whatever the
    outcome it leaves customers, products and order items as they were: in
    particular no stock is ever decremented.  When it fails it leaves the
    whole store as it was; when it succeeds the orders grow by one. *)
Theorem create_order_success_and_frame :
  forall (env : Env) (input : CreateOrderInput) (st : Store),
    exists (st' : Store) (result : CreateOrder),
      CreateOrder_mutate env input st = (st', Return result)
      /\ (co_success result = true
          <-> get_customer st (in_customer_id input) <> None
              /\ in_product_ids input <> []
              /\ unresolved_ids st (in_product_ids input) = [])
      /\ customers st' = customers st
      /\ products st' = products st
      /\ order_items st' = order_items st
      /\ (co_success result = false -> st' = st /\ co_order result = None)
      /\ (co_success result = true ->
          exists order : Order,
            co_order result = Some order
            /\ orders st' = (orders st ++ [order])%list
            /\ order_id order = next_order_id st
            /\ order_status order = default_status env).
Proof.
  intros env input st. rewrite create_order_spec.
  destruct (get_customer st (in_customer_id input)) as [customer|];
    [destruct (in_product_ids input) as [|i ids];
     [|destruct (unresolved_ids st (i :: ids)) as [|b bad]]|];
    eexists; eexists; (split; [reflexivity|]); cbn;
    repeat split; try discriminate; try tauto;
    try (intros (H1 & H2 & H3); congruence);
    try (intros _; eexists; repeat split).
Qed.

Lemma create_customer_store_as_step :
  forall (env : Env) (i : nat) (x : CreateCustomerInput) (s : bulk_state),
    fst (bulk_step env i x s) = fst (CreateCustomer_mutate env x (fst s)).
Proof.
  intros env i x s. unfold bulk_step.
  rewrite create_customer_spec, fails_validation_spec.
  destruct (email_format_ok (in_email x)); cbn [negb orb]; [|reflexivity].
  destruct (email_exists (fst s) (in_email x)); cbn [orb]; [reflexivity|].
  destruct (phone_rejected (in_phone x)); reflexivity.
Qed.

(** A bulk call leaves the store that the same inputs, given one by one
    to [createCustomer] in the same order, leave. *)
Theorem bulk_create_store_is_sequential_create :
  forall (env : Env) (input : list CreateCustomerInput) (st : Store),
    fst (BulkCreateCustomers_mutate env input st)
    = replay env (map OpCreateCustomer input) st.
Proof.
  intros env input st. rewrite bulk_mutate_steps. cbn [fst].
  generalize 0%nat, (@nil Customer, @nil ErrorType). revert st.
  induction input as [|x rest IH]; intros st i acc; cbn [bulk_steps map].
  - reflexivity.
  - unfold replay. cbn [fold_left run].
    pose proof (create_customer_store_as_step env i x (st, acc)) as Hstep.
    cbn [fst] in Hstep. rewrite <- Hstep.
    destruct (bulk_step env i x (st, acc)) as [st1 acc1]. cbn [fst].
    apply IH.
Qed.

(** *** Stock levels *)

Lemma update_low_stock_products :
  forall (env : Env) (st : Store),
    product_ids_unique st ->
    products (fst (UpdateLowStockProducts_mutate env st))
    = map (fun p => if low_stock p then replenished env p else p) (products st).
Proof.
  intros env st Hnd. rewrite update_low_stock_effect. cbn [fst].
  rewrite replenish_all_products by (apply NoDup_ids_filter; exact Hnd).
  apply map_ext_in. intros q Hq.
  rewrite (find_by_id_in_filter low_stock (products st) q Hnd Hq).
  destruct (low_stock q); reflexivity.
Qed.

(** On a store whose products have distinct primary keys and no negative
    stock, one run of the replenishment leaves every product with a stock of
    at least 10, and a second run, at any later time, changes nothing. *)
Theorem update_low_stock_second_run_changes_nothing :
  forall (env env' : Env) (st : Store),
    product_ids_unique st ->
    Forall (fun p => 0 <= product_stock p) (products st) ->
    let st' := fst (UpdateLowStockProducts_mutate env st) in
    Forall (fun p => 10 <= product_stock p) (products st')
    /\ fst (UpdateLowStockProducts_mutate env' st') = st'.
Proof.
  intros env env' st Hnd Hpos st'.
  assert (Hall : Forall (fun p => 10 <= product_stock p) (products st')).
  { subst st'. rewrite (update_low_stock_products env st Hnd).
    rewrite Forall_map. revert Hpos. apply Forall_impl. intros p Hp.
    unfold low_stock. destruct (Z.ltb_spec (product_stock p) 10); cbn; lia. }
  split; [exact Hall|].
  rewrite update_low_stock_effect. cbn [fst].
  rewrite (filter_nothing _ low_stock); [reflexivity|].
  intros p Hp. rewrite Forall_forall in Hall. specialize (Hall p Hp).
  unfold low_stock. apply Z.ltb_ge. exact Hall.
Qed.

Lemma update_low_stock_second_run_changes_nothing_witness :
  let st' := fst (UpdateLowStockProducts_mutate sample_env sample_store) in
  Forall (fun p => 10 <= product_stock p) (products st')
  /\ fst (UpdateLowStockProducts_mutate (mkEnv 200 "pending") st') = st'.
Proof.
  apply (update_low_stock_second_run_changes_nothing sample_env
           (mkEnv 200 "pending") sample_store).
  - unfold product_ids_unique. cbn.
    constructor; [intros [H|[]]; discriminate H|].
    constructor; [intros []|constructor].
  - repeat constructor; cbn; lia.
Defined.

(** *** Products in reachable stores *)

Lemma create_product_spec :
  forall (env : Env) (input : CreateProductInput) (st : Store),
    fst (CreateProduct_mutate env input st)
    = if in_price input <=? 0 then st
      else match in_stock input with
           | None => st
           | Some s =>
               if s <? 0 then st
               else fst (insert_product env (in_product_name input)
                           (in_price input) s st)
           end.
Proof.
  intros env input st.
  unfold CreateProduct_mutate, try_except, validate_price, validate_stock,
    full_clean, bind, raise, ret, lift, insert_product.
  destruct (in_price input <=? 0); [reflexivity|].
  destruct (in_stock input) as [s|]; [|reflexivity].
  destruct (s <? 0); reflexivity.
Qed.

Lemma replenish_all_next_product_id :
  forall (env : Env) (l : list Product) (st : Store),
    next_product_id (fst (replenish_all env l st)) = next_product_id st.
Proof.
  induction l as [|p l IH]; intros st; cbn; [reflexivity|].
  unfold bind, modify. now rewrite IH.
Qed.

Lemma bulk_steps_products :
  forall (env : Env) (input : list CreateCustomerInput) (i : nat) (s : bulk_state),
    products (fst (bulk_steps env i input s)) = products (fst s)
    /\ next_product_id (fst (bulk_steps env i input s)) = next_product_id (fst s).
Proof.
  induction input as [|x rest IH]; intros i s; cbn [bulk_steps]; [auto|].
  destruct (IH (S i) (bulk_step env i x s)) as [H1 H2]. rewrite H1, H2.
  unfold bulk_step. destruct (fails_validation (fst s) x); split; reflexivity.
Qed.

(** The mutations that do not write products leave them, and the next
    product key, alone. *)
Lemma run_products_untouched :
  forall (env : Env) (op : operation) (st : Store),
    match op with
    | OpCreateProduct _ | OpUpdateLowStockProducts => True
    | _ => products (run env op st) = products st
           /\ next_product_id (run env op st) = next_product_id st
    end.
Proof.
  intros env op st. destruct op as [input|input|input|input|]; cbn [run]; auto.
  - rewrite create_customer_spec.
    destruct (negb (email_format_ok (in_email input))); [auto|].
    destruct (email_exists st (in_email input)); [auto|].
    destruct (phone_rejected (in_phone input)); auto.
  - rewrite bulk_mutate_steps. cbn [fst].
    apply (bulk_steps_products env input 0 (st, ([], []))).
  - rewrite create_order_spec.
    destruct (get_customer st (in_customer_id input)); [|auto].
    destruct (in_product_ids input) as [|i ids]; [auto|].
    destruct (unresolved_ids st (i :: ids)); auto.
Qed.

Lemma run_preserves_products_well_formed :
  forall (env : Env) (op : operation) (st : Store),
    products_well_formed st -> products_well_formed (run env op st).
Proof.
  intros env op st [Hall Hnd].
  pose proof (run_products_untouched env op st) as Hsame.
  unfold products_well_formed, product_ids_unique in *.
  destruct op as [input|input|input|input|];
    try (rewrite (proj1 Hsame), (proj2 Hsame); split; assumption).
  - cbn [run]. rewrite create_product_spec.
    destruct (Z.leb_spec (in_price input) 0) as [Hprice|Hprice]; [auto|].
    destruct (in_stock input) as [s|]; [|auto].
    destruct (Z.ltb_spec s 0) as [Hs|Hs]; [auto|].
    unfold insert_product. cbn [fst products next_product_id]. split.
    + apply Forall_app. split.
      * revert Hall. apply Forall_impl. intros p (H1 & H2 & H3).
        repeat split; try assumption. lia.
      * constructor; [|constructor]. cbn. repeat split; lia.
    + rewrite map_app. cbn [map product_id].
      apply NoDup_app; [assumption|repeat constructor; intros []|].
      intros a Ha [Hb|[]]. subst a. apply in_map_iff in Ha.
      destruct Ha as (p & Hid & Hin). rewrite Forall_forall in Hall.
      destruct (Hall p Hin) as (_ & _ & Hlt). lia.
  - cbn [run]. rewrite (update_low_stock_products env st Hnd).
    rewrite update_low_stock_effect. cbn [fst].
    rewrite replenish_all_next_product_id. split.
    + rewrite Forall_map. revert Hall. apply Forall_impl.
      intros p (H1 & H2 & H3). destruct (low_stock p); cbn; repeat split; lia.
    + rewrite map_map.
      rewrite (map_ext _ product_id); [assumption|].
      intros p. destruct (low_stock p); reflexivity.
Qed.

(** In every store the mutations reach, every product has a positive
    price and a stock that is not negative, and no two products share a
    primary key. *)
Theorem reachable_products_well_formed : forall st : Store,
  reachable st ->
  Forall (fun p => 0 < product_price p /\ 0 <= product_stock p) (products st)
  /\ product_ids_unique st.
Proof.
  intros st Hr.
  assert (Hwf : products_well_formed st).
  { induction Hr as [|env op st _ IH].
    - split; constructor.
    - now apply run_preserves_products_well_formed. }
  destruct Hwf as [Hall Hnd]. split; [|exact Hnd].
  revert Hall. apply Forall_impl. tauto.
Qed.

Lemma reachable_products_well_formed_witness :
  Forall (fun p => 0 < product_price p /\ 0 <= product_stock p)
         (products (replay sample_env sample_history empty_store))
  /\ product_ids_unique (replay sample_env sample_history empty_store).
Proof.
  apply (reachable_products_well_formed
           (replay sample_env sample_history empty_store)).
  apply reachable_replay. constructor.
Defined.

(* ------------------------------------------------------------------ *)
(** ** Further properties of the queries *)

Section SortRows.
Context {A : Type}.
Variable key : A -> sort_key.
Variable descending : bool.

Let R (a b : A) : Prop := before key descending a b = true.

Lemma insert_sorted_perm : forall (a : A) (l : list A),
  Permutation (insert_sorted key descending a l) (a :: l).
Proof.
  intros a l. induction l as [|b l IH]; cbn.
  - apply Permutation_refl.
  - destruct (before key descending a b).
    + apply Permutation_refl.
    + apply perm_trans with (b :: a :: l);
        [now apply perm_skip|apply perm_swap].
Qed.

Lemma sort_rows_perm : forall l : list A,
  Permutation (sort_rows key descending l) l.
Proof.
  induction l as [|a l IH]; cbn.
  - constructor.
  - apply perm_trans with (a :: sort_rows key descending l).
    + apply insert_sorted_perm.
    + now apply perm_skip.
Qed.

Hypothesis before_total : forall a b, before key descending a b = false -> R b a.

Lemma insert_sorted_Sorted : forall (a : A) (l : list A),
  Sorted R l -> Sorted R (insert_sorted key descending a l).
Proof.
  intros a l. induction l as [|b l IH]; intros Hs; cbn.
  - repeat constructor.
  - destruct (before key descending a b) eqn:Hab.
    + constructor; [assumption|]. constructor. exact Hab.
    + inversion Hs as [|x xs Hs' Hhd]; subst.
      constructor; [now apply IH|].
      destruct l as [|c l]; cbn.
      * constructor. now apply before_total.
      * destruct (before key descending a c).
        -- constructor. now apply before_total.
        -- constructor. now inversion Hhd.
Qed.

Lemma sort_rows_Sorted : forall l : list A, Sorted R (sort_rows key descending l).
Proof.
  induction l as [|a l IH]; cbn.
  - constructor.
  - now apply insert_sorted_Sorted.
Qed.

End SortRows.

(** Sorting in descending order on an integer column. *)
Lemma sort_rows_descending_int :
  forall (A : Type) (f : A -> Z) (l : list A),
    StronglySorted (fun a b => f b <= f a)
                   (sort_rows (fun a => KInt (f a)) true l).
Proof.
  intros A f l. apply Sorted_StronglySorted.
  - intros a b c Hab Hbc. lia.
  - pose proof (sort_rows_Sorted (fun a => KInt (f a)) true) as Hs.
    assert (Htotal : forall a b : A,
              before (fun a => KInt (f a)) true a b = false ->
              before (fun a => KInt (f a)) true b a = true).
    { intros a b. unfold before, key_leb. rewrite Z.leb_gt, Z.leb_le. lia. }
    specialize (Hs Htotal l).
    induction Hs as [|a l' Hs' IH Hhd]; constructor; [exact IH|].
    destruct Hhd as [|b l'' Hab]; constructor.
    unfold before, key_leb in Hab. now apply Z.leb_le in Hab.
Qed.

(** [highValueOrders] returns exactly the orders whose total is at least
    the minimum, each once for each time the store holds it, from the highest
    total to the lowest. *)
Theorem high_value_orders_sorted_and_complete :
  forall (st : Store) (min_amount : Decimal),
    exists rows : list Order,
      resolve_high_value_orders st min_amount = Return rows
      /\ Permutation rows
           (filter (fun o => min_amount <=? order_total_amount o) (orders st))
      /\ (forall o, In o rows <-> In o (orders st) /\ min_amount <= order_total_amount o)
      /\ StronglySorted (fun a b => order_total_amount b <= order_total_amount a) rows.
Proof.
  intros st min_amount. eexists. split; [reflexivity|].
  split; [apply sort_rows_perm|]. split.
  - intros o. rewrite <- Z.leb_le.
    rewrite <- (filter_In (fun o => min_amount <=? order_total_amount o)). split.
    + apply Permutation_in. apply sort_rows_perm.
    + apply Permutation_in. apply Permutation_sym. apply sort_rows_perm.
  - apply (sort_rows_descending_int Order order_total_amount).
Qed.

(** [customerOrders] returns exactly the orders of the customer, narrowed
    to the status when one that is not empty is given, from the latest order
    date to the earliest. *)
Theorem customer_orders_sorted_and_complete :
  forall (st : Store) (cid : ID) (status : option string),
    exists rows : list Order,
      resolve_customer_orders st cid status = Return rows
      /\ (forall o, In o rows
                    <-> In o (orders st) /\ order_customer_id o = cid
                        /\ (forall s, status = Some s -> s <> "" ->
                                      order_status o = s))
      /\ StronglySorted (fun a b => order_date b <= order_date a) rows.
Proof.
  intros st cid status. rewrite resolve_customer_orders_spec.
  eexists. split; [reflexivity|]. split.
  - intros o. cbv zeta. split.
    + intros Hin. apply (Permutation_in _ (sort_rows_perm _ _ _)) in Hin.
      destruct status as [[|c s]|]; cbn [Py.truthy_opt Py.truthy] in Hin.
      * apply filter_In in Hin. destruct Hin as [Hin Hc]. apply Z.eqb_eq in Hc.
        repeat split; try assumption. intros s [= <-] Hs. now elim Hs.
      * apply filter_In in Hin. destruct Hin as [Hin Hs].
        apply filter_In in Hin. destruct Hin as [Hin Hc]. apply Z.eqb_eq in Hc.
        apply String.eqb_eq in Hs.
        repeat split; try assumption. now intros s' [= <-] _.
      * apply filter_In in Hin. destruct Hin as [Hin Hc]. apply Z.eqb_eq in Hc.
        repeat split; try assumption. discriminate.
    + intros (Hin & Hc & Hs).
      apply (Permutation_in _ (Permutation_sym (sort_rows_perm _ _ _))).
      apply Z.eqb_eq in Hc.
      destruct status as [[|c s]|]; cbn [Py.truthy_opt Py.truthy].
      * apply filter_In. auto.
      * apply filter_In. split; [apply filter_In; auto|].
        apply String.eqb_eq. apply Hs; [reflexivity|discriminate].
      * apply filter_In. auto.
  - apply (sort_rows_descending_int Order order_date).
Qed.

(** An order that [createOrder] has just created is among the orders
    [customerOrders] returns for its customer. *)
Theorem created_order_is_listed_for_its_customer :
  forall (env : Env) (input : CreateOrderInput) (st st' : Store) (order : Order)
         (message : string),
    CreateOrder_mutate env input st
      = (st', Return (mkCreateOrder (Some order) message true)) ->
    exists rows : list Order,
      resolve_customer_orders st' (in_customer_id input) None = Return rows
      /\ In order rows.
Proof.
  intros env input st st' order message Hrun.
  rewrite resolve_customer_orders_spec. eexists. split; [reflexivity|].
  apply (Permutation_in _ (Permutation_sym (sort_rows_perm _ _ _))).
  cbn [Py.truthy_opt]. apply filter_In.
  rewrite create_order_spec in Hrun. unfold get_customer in Hrun.
  destruct (find (fun c => customer_id c =? in_customer_id input) (customers st))
    as [customer|] eqn:Hc; [|discriminate].
  apply find_some in Hc. destruct Hc as [_ Hid].
  destruct (in_product_ids input) as [|i ids]; [discriminate|].
  destruct (unresolved_ids st (i :: ids)); [|discriminate].
  unfold insert_order in Hrun. cbn [fst snd] in Hrun.
  injection Hrun as <- <- _. cbn [orders order_customer_id]. split.
  - apply in_or_app. right. now left.
  - exact Hid.
Qed.

Lemma created_order_is_listed_for_its_customer_witness :
  exists rows : list Order,
    resolve_customer_orders
      (fst (CreateOrder_mutate sample_env (mkCreateOrderInput 1 [1; 2] None)
              sample_store))
      1 None = Return rows
    /\ In (mkOrder 1 1 100 "pending" 2550 100) rows.
Proof.
  apply (created_order_is_listed_for_its_customer sample_env
           (mkCreateOrderInput 1 [1; 2] None) sample_store _ _
           "Order created successfully!").
  reflexivity.
Defined.

Lemma join_keys_members :
  forall (A : Type) (keys : A -> list sort_key) (rows : list A) (r : A),
    In r (map snd (join_keys keys rows)) <-> In r rows.
Proof.
  intros A keys rows r. unfold join_keys. rewrite in_map_iff. split.
  - intros ((k & r') & Hr & Hin). cbn in Hr. subst r'.
    apply in_flat_map in Hin. destruct Hin as (row & Hrow & Hin).
    destruct (keys row) as [|k0 ks].
    + destruct Hin as [[= _ <-]|[]]. exact Hrow.
    + apply in_map_iff in Hin. destruct Hin as (k' & [= _ <-] & _). exact Hrow.
  - intros Hin. destruct (keys r) as [|k0 ks] eqn:Hk.
    + exists (KNull, r). split; [reflexivity|].
      apply in_flat_map. exists r. split; [exact Hin|]. rewrite Hk. now left.
    + exists (k0, r). split; [reflexivity|].
      apply in_flat_map. exists r. split; [exact Hin|]. rewrite Hk.
      apply in_map_iff. exists k0. split; [reflexivity|now left].
Qed.

(** Whatever the name, the sort mechanism returns the rows it was given
    and no other. *)
Lemma order_by_members :
  forall (A : Type) (columns : string -> option (A -> sort_key))
         (declared : declared_names A) (field : string) (rows sorted : list A),
    order_by columns declared field rows = Return sorted ->
    forall r, In r sorted <-> In r rows.
Proof.
  intros A columns declared field rows sorted. unfold order_by.
  destruct (String.eqb field "?"); [intros [= <-]; tauto|].
  destruct (strip_minus field) as [descending name].
  destruct (columns name) as [key|].
  - intros [= <-] r. split; apply Permutation_in;
      [|apply Permutation_sym]; apply sort_rows_perm.
  - destruct (declared name) as [keys|]; [|discriminate].
    intros [= <-] r. rewrite <- (join_keys_members A keys rows r).
    split; apply Permutation_in; apply Permutation_map;
      [|apply Permutation_sym]; apply sort_rows_perm.
Qed.

(** Ordering by a listed column, or by ["?"], only rearranges. *)
Lemma order_by_column_permutes :
  forall (A : Type) (columns : string -> option (A -> sort_key))
         (declared : declared_names A) (field : string) (rows sorted : list A),
    field = "?" \/ columns (snd (strip_minus field)) <> None ->
    order_by columns declared field rows = Return sorted ->
    Permutation sorted rows.
Proof.
  intros A columns declared field rows sorted Hcol. unfold order_by.
  destruct (String.eqb_spec field "?") as [->|Hq];
    [intros [= <-]; apply Permutation_refl|].
  destruct Hcol as [Hcol|Hcol]; [contradiction|].
  destruct (strip_minus field) as [descending name]. cbn [snd] in Hcol.
  destruct (columns name) as [key|]; [|now elim Hcol].
  intros [= <-]. apply sort_rows_perm.
Qed.

(** Ordering never drops a row and never returns a row the unordered
    query does not return: when a list query with an [order_by] succeeds, its
    rows are, as a set, the rows the same query returns without [order_by].
    When the sort mechanism orders by a listed column of the entity, or by
    ["?"], they are those rows rearranged, each as often as before.
    (Ordering through a relation to many can repeat a row.) *)
Theorem ordering_only_rearranges :
  forall (st : Store) (ob : OrderByInput),
    (forall (declared : declared_names Customer)
            (filters : option CustomerFilterInput) (rows : list Customer),
        resolve_customers declared st filters (Some ob) = Return rows ->
        exists plain,
          resolve_customers declared st filters None = Return plain
          /\ (forall c, In c rows <-> In c plain)
          /\ (ordering_argument ob = "?"
              \/ customer_columns (snd (strip_minus (ordering_argument ob))) <> None ->
              Permutation rows plain))
    /\ (forall (declared : declared_names Product)
               (filters : option ProductFilterInput) (rows : list Product),
          resolve_products declared st filters (Some ob) = Return rows ->
          exists plain,
            resolve_products declared st filters None = Return plain
            /\ (forall p, In p rows <-> In p plain)
            /\ (ordering_argument ob = "?"
                \/ product_columns (snd (strip_minus (ordering_argument ob))) <> None ->
                Permutation rows plain))
    /\ (forall (declared : declared_names Order)
               (filters : option OrderFilterInput) (rows : list Order),
          resolve_orders declared st filters (Some ob) = Return rows ->
          exists plain,
            resolve_orders declared st filters None = Return plain
            /\ (forall o, In o rows <-> In o plain)
            /\ (ordering_argument ob = "?"
                \/ order_columns (snd (strip_minus (ordering_argument ob))) <> None ->
                Permutation rows plain)).
Proof.
  intros st ob. repeat split; intros declared filters rows H; eexists;
    (split; [reflexivity|]);
    unfold resolve_customers, resolve_products, resolve_orders, apply_ordering in H;
    (split;
     [exact (order_by_members _ _ _ _ _ _ H)
     |intros Hcol; exact (order_by_column_permutes _ _ _ _ _ _ Hcol H)]).
Qed.

Lemma ordering_only_rearranges_witness :
  exists plain : list Customer,
    resolve_customers nothing_declared sample_directory None None = Return plain
    /\ Permutation
         [mkCustomer 2 "Zed" "zed@example.com" None 51 51;
          mkCustomer 3 "Bob" "bob@example.com" None 52 52;
          mkCustomer 1 "Ann" "ann@example.com" None 50 50]
         plain.
Proof.
  destruct (ordering_only_rearranges sample_directory
              (mkOrderByInput "name" (Some "desc"))) as (H & _ & _).
  destruct (H nothing_declared None
              [mkCustomer 2 "Zed" "zed@example.com" None 51 51;
               mkCustomer 3 "Bob" "bob@example.com" None 52 52;
               mkCustomer 1 "Ann" "ann@example.com" None 50 50]
              eq_refl) as (plain & Hplain & _ & Hperm).
  exists plain. split; [exact Hplain|]. apply Hperm. right. discriminate.
Defined.

(** *** [searchCustomers] *)






(** A stock bound of zero is false in Python and is not applied:
    [stock_lte = 0] does not select the products that are out of stock, it
    selects what the query selects without the bound.  The same holds for
    [stock_gte = 0], for an empty [name] and for [low_stock = false]. *)
Theorem falsy_product_filters_are_ignored :
  forall (declared : declared_names Product) (st : Store)
         (ob : option OrderByInput) (name : option string)
         (lo hi : option Z) (low : option bool),
    resolve_products declared st
      (Some (mkProductFilterInput name lo (Some 0) low)) ob
    = resolve_products declared st
        (Some (mkProductFilterInput name lo None low)) ob
    /\ resolve_products declared st
         (Some (mkProductFilterInput name (Some 0) hi low)) ob
       = resolve_products declared st
           (Some (mkProductFilterInput name None hi low)) ob
    /\ resolve_products declared st
         (Some (mkProductFilterInput (Some "") lo hi low)) ob
       = resolve_products declared st
           (Some (mkProductFilterInput None lo hi low)) ob
    /\ resolve_products declared st
         (Some (mkProductFilterInput name lo hi (Some false))) ob
       = resolve_products declared st
           (Some (mkProductFilterInput name lo hi None)) ob
    /\ resolve_products declared st
         (Some (mkProductFilterInput None None (Some 0) None)) ob
       = resolve_products declared st None ob.
Proof.
  intros declared st ob name lo hi low. unfold resolve_products.
  repeat split; f_equal; try reflexivity.
  cbn. induction (products st) as [|p l IH]; cbn; [reflexivity|].
  now rewrite IH.
Qed.

Lemma stock_floor_after_update :
  forall (env : Env) (st : Store),
    product_ids_unique st ->
    Forall (fun p => 0 <= product_stock p) (products st) ->
    Forall (fun p => 10 <= product_stock p)
           (products (fst (UpdateLowStockProducts_mutate env st))).
Proof.
  intros env st Hnd Hpos. rewrite (update_low_stock_products env st Hnd).
  rewrite Forall_map. revert Hpos. apply Forall_impl. intros p Hp.
  unfold low_stock. destruct (Z.ltb_spec (product_stock p) 10); cbn; lia.
Qed.

(** After one run of the replenishment on a store whose products have
    distinct primary keys and no negative stock, [availableProducts] returns
    every product of the store. *)
Theorem all_products_available_after_replenishment :
  forall (env : Env) (st : Store),
    product_ids_unique st ->
    Forall (fun p => 0 <= product_stock p) (products st) ->
    resolve_available_products (fst (UpdateLowStockProducts_mutate env st))
    = Return (products (fst (UpdateLowStockProducts_mutate env st))).
Proof.
  intros env st Hnd Hpos.
  pose proof (stock_floor_after_update env st Hnd Hpos) as Hfloor.
  unfold resolve_available_products. f_equal.
  induction (products (fst (UpdateLowStockProducts_mutate env st))) as [|p l IH];
    cbn; [reflexivity|].
  inversion Hfloor as [|x xs Hp Hl]; subst.
  destruct (Z.ltb_spec 0 (product_stock p)); [|lia].
  f_equal. now apply IH.
Qed.

Lemma all_products_available_after_replenishment_witness :
  resolve_available_products
    (fst (UpdateLowStockProducts_mutate sample_env sample_store))
  = Return (products (fst (UpdateLowStockProducts_mutate sample_env sample_store))).
Proof.
  apply (all_products_available_after_replenishment sample_env sample_store).
  - unfold product_ids_unique. cbn.
    constructor; [intros [H|[]]; discriminate H|].
    constructor; [intros []|constructor].
  - repeat constructor; cbn; lia.
Defined.

(** In every store the mutations reach, the customer name and the
    customer email of every order resolve, to the name and the email of a
    stored customer whose primary key the order carries. *)
Theorem reachable_orders_resolve_their_customer :
  forall (st : Store) (o : Order),
    reachable st -> In o (orders st) ->
    exists c : Customer,
      In c (customers st)
      /\ customer_id c = order_customer_id o
      /\ resolve_customer_name st o = Some (customer_name c)
      /\ resolve_customer_email st o = Some (customer_email c).
Proof.
  intros st o Hr Hin. apply reachable_invariants in Hr.
  destruct Hr as (_ & _ & Hfk & _).
  unfold orders_have_customers in Hfk. rewrite Forall_forall in Hfk.
  specialize (Hfk o Hin).
  unfold resolve_customer_name, resolve_customer_email.
  destruct (get_customer st (order_customer_id o)) as [c|] eqn:Hc; [|congruence].
  unfold get_customer in Hc. apply find_some in Hc. destruct Hc as [Hc Hid].
  apply Z.eqb_eq in Hid. exists c. auto.
Qed.

Lemma reachable_orders_resolve_their_customer_witness :
  exists c : Customer,
    In c (customers (replay sample_env sample_history empty_store))
    /\ customer_id c = 1
    /\ resolve_customer_name (replay sample_env sample_history empty_store)
         (mkOrder 1 1 100 "pending" 2550 100) = Some (customer_name c)
    /\ resolve_customer_email (replay sample_env sample_history empty_store)
         (mkOrder 1 1 100 "pending" 2550 100) = Some (customer_email c).
Proof.
  apply (reachable_orders_resolve_their_customer
           (replay sample_env sample_history empty_store)
           (mkOrder 1 1 100 "pending" 2550 100)).
  - apply reachable_replay. constructor.
  - left. reflexivity.
Defined.

(* ------------------------------------------------------------------ *)
(** ** Properties of the validation patterns *)

Lemma fullmatch_Void : forall s : string, Re.fullmatch Re.Void s = false.
Proof. induction s as [|c s IH]; cbn; [reflexivity|exact IH]. Qed.

Lemma alt_Void_r : forall r : Re.re, Re.alt r Re.Void = r.
Proof. now destruct r. Qed.

Lemma cat_Void_r : forall r : Re.re, Re.cat r Re.Void = Re.Void.
Proof. now destruct r. Qed.

Lemma cat_Eps_r : forall r : Re.re, Re.cat r Re.Eps = r.
Proof. now destruct r. Qed.

Lemma fullmatch_Alt : forall (s : string) (a b : Re.re),
  Re.fullmatch (Re.Alt a b) s = Re.fullmatch a s || Re.fullmatch b s.
Proof.
  induction s as [|c s IH]; intros a b; cbn [Re.fullmatch Re.deriv Re.nullable];
    [reflexivity|].
  destruct (Re.deriv c a) eqn:Ea, (Re.deriv c b) eqn:Eb; cbn [Re.alt];
    rewrite ?fullmatch_Void, ?orb_false_r, ?orb_false_l; try reflexivity;
    apply IH.
Qed.

Lemma fullmatch_alt : forall (s : string) (a b : Re.re),
  Re.fullmatch (Re.alt a b) s = Re.fullmatch a s || Re.fullmatch b s.
Proof.
  intros s a b.
  destruct a, b; cbn [Re.alt];
    rewrite ?fullmatch_Void, ?orb_false_r, ?orb_false_l; try reflexivity;
    apply fullmatch_Alt.
Qed.

Lemma fullmatch_Cat_Void_l : forall (s : string) (b : Re.re),
  Re.fullmatch (Re.Cat Re.Void b) s = false.
Proof.
  intros [|c s] b; cbn; [reflexivity|apply fullmatch_Void].
Qed.

Lemma fullmatch_Cat_Void_r : forall (s : string) (a : Re.re),
  Re.fullmatch (Re.Cat a Re.Void) s = false.
Proof.
  intros [|c s] a; cbn [Re.fullmatch Re.deriv Re.nullable].
  - apply andb_false_r.
  - rewrite cat_Void_r. destruct (Re.nullable a); apply fullmatch_Void.
Qed.

Lemma fullmatch_Cat_Eps_l : forall (s : string) (b : Re.re),
  Re.fullmatch (Re.Cat Re.Eps b) s = Re.fullmatch b s.
Proof.
  intros [|c s] b; cbn [Re.fullmatch Re.deriv Re.nullable Re.cat Re.alt];
    reflexivity.
Qed.

Lemma fullmatch_Cat_Eps_r : forall (s : string) (a : Re.re),
  Re.fullmatch (Re.Cat a Re.Eps) s = Re.fullmatch a s.
Proof.
  intros [|c s] a; cbn [Re.fullmatch Re.deriv Re.nullable].
  - apply andb_true_r.
  - rewrite cat_Eps_r. destruct (Re.nullable a); [rewrite alt_Void_r|]; reflexivity.
Qed.

Lemma fullmatch_cat : forall (s : string) (a b : Re.re),
  Re.fullmatch (Re.cat a b) s = Re.fullmatch (Re.Cat a b) s.
Proof.
  intros s a b.
  destruct a, b; cbn [Re.cat];
    rewrite ?fullmatch_Cat_Void_l, ?fullmatch_Cat_Void_r, ?fullmatch_Cat_Eps_l,
      ?fullmatch_Cat_Eps_r, ?fullmatch_Void; reflexivity.
Qed.

(** If one string matches [a] and another matches [b], the first followed
    by the second matches [a] followed by [b]. *)
Lemma fullmatch_Cat_app : forall (s1 s2 : string) (a b : Re.re),
  Re.fullmatch a s1 = true -> Re.fullmatch b s2 = true ->
  Re.fullmatch (Re.Cat a b) (s1 ++ s2) = true.
Proof.
  induction s1 as [|c s1 IH]; intros s2 a b Ha Hb.
  - cbn [append]. cbn [Re.fullmatch] in Ha.
    destruct s2 as [|c s2]; cbn [Re.fullmatch Re.deriv Re.nullable].
    + cbn [Re.fullmatch] in Hb. now rewrite Ha, Hb.
    + cbn [Re.fullmatch] in Hb. rewrite Ha, fullmatch_alt, Hb. apply orb_true_r.
  - cbn [append Re.fullmatch Re.deriv]. cbn [Re.fullmatch] in Ha.
    destruct (Re.nullable a).
    + rewrite fullmatch_alt, fullmatch_cat, (IH s2 _ b Ha Hb). reflexivity.
    + rewrite fullmatch_cat. apply (IH s2 _ b Ha Hb).
Qed.

Lemma append_empty_r : forall s : string, (s ++ "")%string = s.
Proof. induction s as [|c s IH]; cbn; [reflexivity|now rewrite IH]. Qed.

Lemma match_anchored_newline : forall (body : Re.re) (s : string),
  Re.fullmatch body s = true ->
  Re.match_anchored body s = true
  /\ Re.match_anchored body (s ++ Py.newline) = true.
Proof.
  intros body s H. unfold Re.match_anchored. split.
  - rewrite <- (append_empty_r s) at 1. now apply fullmatch_Cat_app.
  - now apply fullmatch_Cat_app.
Qed.

(** The [$] of the two patterns also holds before a line feed that ends
    the string.  [validate_email] raises nothing for an email that matches
    the pattern and is followed by a line feed, on a store that does not hold
    that string; [validate_phone] raises nothing for a phone number that
    matches the pattern and is followed by a line feed.  Neither writes to
    the store. *)
Theorem trailing_line_feed_is_accepted :
  (forall (st : Store) (email : string),
      Re.fullmatch email_pattern email = true ->
      email_exists st (email ++ Py.newline) = false ->
      validate_email (email ++ Py.newline) st = (st, Return tt))
  /\ (forall (st : Store) (phone : string),
        Re.fullmatch phone_pattern phone = true ->
        validate_phone (Some (phone ++ Py.newline)) st = (st, Return tt)).
Proof.
  split.
  - intros st email Hm Hex.
    destruct (match_anchored_newline email_pattern email Hm) as [_ Hnl].
    unfold validate_email, email_format_ok, bind, get. rewrite Hnl. cbn [negb].
    rewrite Hex. reflexivity.
  - intros st phone Hm.
    destruct (match_anchored_newline phone_pattern phone Hm) as [_ Hnl].
    unfold validate_phone, phone_format_ok. rewrite Hnl. cbn [negb].
    destruct (Py.truthy (phone ++ Py.newline)); reflexivity.
Qed.

Lemma trailing_line_feed_is_accepted_witness :
  validate_email ("bob@example.com" ++ Py.newline) sample_store
  = (sample_store, Return tt)
  /\ validate_phone (Some ("123-456-7890" ++ Py.newline)) sample_store
     = (sample_store, Return tt).
Proof.
  destruct trailing_line_feed_is_accepted as [He Hp]. split.
  - apply (He sample_store "bob@example.com"); reflexivity.
  - apply (Hp sample_store "123-456-7890"). reflexivity.
Defined.

(** *** The characters of accepted strings *)










(* ------------------------------------------------------------------ *)
(** ** Price ranges, and the product filters of orders *)

(** [productsByPriceRange] returns the products whose price lies between
    the bounds given, both included; a bound that is absent does not
    restrict, while a bound of zero does; and when the minimum is above the
    maximum nothing is returned. *)
Theorem price_range_is_inclusive :
  forall (st : Store) (min_price max_price : option Decimal),
    exists rows : list Product,
      resolve_products_by_price_range st min_price max_price = Return rows
      /\ (forall p, In p rows
                    <-> In p (products st)
                        /\ (forall lo, min_price = Some lo -> lo <= product_price p)
                        /\ (forall hi, max_price = Some hi -> product_price p <= hi))
      /\ (forall lo hi, min_price = Some lo -> max_price = Some hi -> hi < lo ->
                        rows = []).
Proof.
  intros st min_price max_price. unfold resolve_products_by_price_range.
  eexists. split; [reflexivity|]. split.
  - intros p. destruct min_price as [lo|], max_price as [hi|];
      rewrite ?filter_In, ?Z.leb_le; split.
    + intros ((Hin & Hlo) & Hhi). repeat split; try assumption.
      * now intros lo' [= <-].
      * now intros hi' [= <-].
    + intros (Hin & Hlo & Hhi). auto.
    + intros (Hin & Hlo). repeat split; try assumption.
      * now intros lo' [= <-].
      * discriminate.
    + intros (Hin & Hlo & _). auto.
    + intros (Hin & Hhi). repeat split; try assumption.
      * discriminate.
      * now intros hi' [= <-].
    + intros (Hin & _ & Hhi). auto.
    + intros Hin. repeat split; try assumption; discriminate.
    + tauto.
  - intros lo hi -> -> Hcross. apply filter_nothing.
    intros p Hp. apply filter_In in Hp. destruct Hp as [_ Hlo].
    apply Z.leb_le in Hlo. apply Z.leb_gt. lia.
Qed.




Lemma customer_orders_sorted_and_complete_witness :
  exists rows : list Order,
    resolve_customer_orders sample_store_with_order 1 (Some "pending") = Return rows
    /\ In sample_order rows.
Proof.
  destruct (customer_orders_sorted_and_complete sample_store_with_order 1
              (Some "pending")) as (rows & Hrun & Hin & _).
  exists rows. split; [exact Hrun|]. apply Hin.
  split; [now left|]. split; [reflexivity|].
  intros s [= <-] _. reflexivity.
Defined.

Lemma price_range_is_inclusive_witness :
  exists rows : list Product,
    resolve_products_by_price_range sample_store (Some 1000) (Some 1550) = Return rows
    /\ In (mkProduct 1 "Pen" 1000 3 50 50) rows
    /\ In (mkProduct 2 "Ink" 1550 30 50 50) rows.
Proof.
  destruct (price_range_is_inclusive sample_store (Some 1000) (Some 1550))
    as (rows & Hrun & Hin & _).
  exists rows. split; [exact Hrun|]. split; apply Hin.
  - split; [now left|]. split; intros b [= <-]; cbn; lia.
  - split; [right; now left|]. split; intros b [= <-]; cbn; lia.
Defined.
